(** * The SonarQube / ServiceNow gateway (src/gateway/index.js)

    A shallow embedding of the gateway's call-orchestration core: the retry
    wrapper [retryOperation], the module-level token cache used by
    [getServiceNowToken] and cleared by [createServiceNowIncident], the
    best-effort [sendIncidentEmail], and the two POST handlers.

    The asynchronous JavaScript functions become functions in a state and
    exception monad over [World].  Everything the process cannot decide for
    itself (the answers of the remote services, the clock, [Math.random],
    the mail transport) is read from an [Env] oracle that sees the whole
    history of external effects performed so far.  Numbers are integers
    (exact in doubles below [2^53]); the one product that is rounded, in the
    jitter, is rounded as a double.  Console output is not modelled beyond
    the one place where producing it can raise. *)

From Equations Require Import Equations.
From Stdlib Require Import ZArith List String Ascii Bool Lia DecimalString.
Import ListNotations.
Open Scope string_scope.
Open Scope Z_scope.


(** ** JavaScript values that the code inspects *)

(** Truthiness of a string-valued expression that may be [undefined]/[null]:
    only a non-empty string is truthy. *)
Definition truthy_str (o : option string) : bool :=
  match o with
  | Some s => negb (String.eqb s "")
  | None => false
  end.

(** Truthiness of a number-valued expression that may be [undefined]/[null]:
    zero is falsy. *)
Definition truthy_num (o : option Z) : bool :=
  match o with
  | Some z => negb (Z.eqb z 0)
  | None => false
  end.

(** [a || b] on possibly-undefined strings. *)
Definition or_str (a b : option string) : option string :=
  if truthy_str a then a else b.

(** A value interpolated in a template literal. *)
Definition tmpl (o : option string) : string :=
  match o with
  | Some s => s
  | None => "undefined"
  end.

(** Decimal rendering of an integer inside a template literal. *)
Definition show_Z (z : Z) : string :=
  match z with
  | Z0 => "0"
  | Zpos p => NilEmpty.string_of_uint (Pos.to_uint p)
  | Zneg p => "-" ++ NilEmpty.string_of_uint (Pos.to_uint p)
  end.

(** The body of an HTTP error response, as far as the code looks at it:
    [data?.error] and [JSON.stringify(data)]. *)
Record ErrorData := {
  data_error : option string;
  data_json : string
}.

(** [error.response] of an axios failure. *)
Record HttpResponse := {
  resp_status : Z;
  resp_statusText : string;
  resp_data : ErrorData
}.

(** A JavaScript [Error] object.  A plain [new Error(msg)] has neither
    [response] nor [request]; an axios failure may carry either. *)
Record JsError := {
  message : string;
  response : option HttpResponse;
  request : bool
}.

Definition new_Error (msg : string) : JsError :=
  {| message := msg; response := None; request := false |}.

(** What a [throw] statement can raise in this program: an [Error], or the
    value [undefined] (the initial content of [lastError]). *)
Inductive JsValue :=
| JsUndefined
| JsErr (e : JsError).

(** ** Payloads exchanged with the services *)

Record Payload := {
  short_description : string;
  description : string;
  urgency : string;
  impact : string
}.

(** [data.result] of a successful incident creation. *)
Record Incident := {
  number : option string;
  sys_id : option string
}.

(** [data] of the incident POST: [data?.result]. *)
Record IncidentData := {
  result : option Incident
}.

(** [data] of the OAuth exchange: [data?.access_token], [data.expires_in]. *)
Record OAuthData := {
  access_token : option string;
  expires_in : option Z
}.

Record Component := {
  name : option string
}.

(** [data] of the project search: [projectData?.components?.[0]].  An array
    element may itself be [null]. *)
Record SonarData := {
  components : option (list (option Component))
}.

Record Mail := {
  mail_from : option string;
  mail_to : option string;
  subject : string;
  text : string
}.

Record TransportOptions := {
  host : option string;
  port : option Z;
  secure : bool;
  auth : option (string * string)
}.

(** ** External effects *)

(** Every effect that leaves the process, in the order performed. *)
Inductive Event :=
| SonarSearch (projectKey : string)
| OAuthExchange
| IncidentPost (token : string) (payload : Payload)
| SendMail (transport : TransportOptions) (mail : Mail)
| Sleep (ms : Z).

(** The history of effects, most recent first. *)
Definition History := list Event.

(** The settled value of an axios promise: [data] (possibly [null]) or a
    rejection. *)
Inductive Axios (A : Type) :=
| Resolved (d : option A)
| Rejected (e : JsError).
Arguments Resolved {A} d.
Arguments Rejected {A} e.

(** [process.env] and the outside world. *)
Record Env := {
  SERVICENOW_URL : string;
  SERVICENOW_INCIDENT_UI_PATH : string;
  SMTP_HOST : option string;
  SMTP_PORT : option string;
  SMTP_SECURE : string;
  SMTP_USER : option string;
  SMTP_PASS : option string;
  EMAIL_FROM : option string;
  EMAIL_TO : option string;
  (** [Date.now()], milliseconds since the epoch. *)
  Date_now : History -> N;
  (** [new Date().toISOString()]. *)
  Date_toISOString : History -> string;
  (** [Math.random()] is [k / 2^53] for the [k] given here modulo [2^53]. *)
  Math_random : History -> N;
  (** [Number(s)] on a string; [None] is [NaN]. *)
  Number_of_string : string -> option Z;
  sonar_get : History -> string -> Axios SonarData;
  oauth_post : History -> Axios OAuthData;
  incident_post : History -> string -> Payload -> Axios IncidentData;
  (** [nodemailer.createTransport] may throw on a bad configuration. *)
  createTransport : TransportOptions -> option JsError;
  transport_sendMail : History -> TransportOptions -> Mail -> option JsError
}.

(** ** Process state *)

(** The two module-level variables of the token cache, and the history. *)
Record World := {
  cachedToken : option string;
  tokenExpiry : option Z;
  trace : History
}.

Definition emit (ev : Event) (w : World) : World :=
  {| cachedToken := cachedToken w;
     tokenExpiry := tokenExpiry w;
     trace := ev :: trace w |}.

(** ** The monad of asynchronous functions *)

Inductive Outcome (A : Type) :=
| Return (a : A)
| Throw (v : JsValue).
Arguments Return {A} a.
Arguments Throw {A} v.

Definition M (A : Type) : Type := World -> Outcome A * World.

Definition ret {A} (a : A) : M A := fun w => (Return a, w).

Definition throw {A} (v : JsValue) : M A := fun w => (Throw v, w).

Definition bind {A B} (m : M A) (k : A -> M B) : M B :=
  fun w =>
    match m w with
    | (Return a, w') => k a w'
    | (Throw v, w') => (Throw v, w')
    end.

(** [try { body } catch (e) { handler e }]. *)
Definition try_catch {A} (body : M A) (handler : JsValue -> M A) : M A :=
  fun w =>
    match body w with
    | (Return a, w') => (Return a, w')
    | (Throw v, w') => handler v w'
    end.

Notation "x <- m ;; k" := (bind m (fun x => k))
  (at level 61, m at next level, right associativity).
Notation "m ;;; k" := (bind m (fun _ => k))
  (at level 61, right associativity).

(** Reading a property of a caught value; on [undefined] this is a
    [TypeError]. *)
Definition get_message (v : JsValue) : M string :=
  match v with
  | JsErr e => ret (message e)
  | JsUndefined =>
      throw (JsErr (new_Error
        "Cannot read properties of undefined (reading 'message')"))
  end.

(** [await sleep(ms)]. *)
Definition sleep (ms : Z) : M unit :=
  fun w => (Return tt, emit (Sleep ms) w).

(** ** retryOperation *)

Record RetryOpts := {
  retries : Z;
  baseDelayMs : Z;
  factor : Z;
  jitterMs : Z;
  label : string
}.

(** The destructuring defaults of the second parameter. *)
Definition default_retries : Z := 3.
Definition default_baseDelayMs : Z := 500.
Definition default_factor : Z := 2.
Definition default_jitterMs : Z := 100.

Definition opts (r : Z) (l : string) : RetryOpts :=
  {| retries := r;
     baseDelayMs := default_baseDelayMs;
     factor := default_factor;
     jitterMs := default_jitterMs;
     label := l |}.

(** The double nearest to [x / 2^53], as a numerator over [2^53]: [x] kept
    to 53 significant bits, rounded to nearest with ties to even. *)
Definition round53 (x : Z) : Z :=
  if x <? 2 ^ 53 then x
  else
    let s := Z.log2 x - 52 in
    let q := x / 2 ^ s in
    let r := x mod 2 ^ s in
    let up := ((2 ^ s <? 2 * r) || ((2 ^ s =? 2 * r) && Z.odd q))%bool in
    (if up then q + 1 else q) * 2 ^ s.

(** [Math.floor(Math.random() * jitterMs)] for an integer [jitterMs]: the
    product of the doubles [k / 2^53] and [jitterMs] is their exact product
    rounded to the nearest double, and the floor is taken of that. *)
Definition jitter (env : Env) (jitterMs : Z) (h : History) : Z :=
  let k := Z.of_N (Math_random env h) mod 2 ^ 53 in
  Z.sgn jitterMs * round53 (k * Z.abs jitterMs) / 2 ^ 53.

(** [baseDelayMs * Math.pow(factor, attempt) + Math.floor(...)]. *)
Definition backoff_delay (env : Env) (o : RetryOpts) (attempt : Z) (h : History) : Z :=
  baseDelayMs o * factor o ^ attempt + jitter env (jitterMs o) h.

(** The [TypeError] of reading [err.message] when [err] is [undefined]. *)
Definition message_TypeError : JsError :=
  new_Error "Cannot read properties of undefined (reading 'message')".

(** Ghost record of what the wrapper itself did, tagged with the value of
    [attempt] at that point: each evaluation of [fn()] with what it raised
    ([None] when it returned), and each [await sleep(delay)]. *)
Inductive RetryStep :=
| Invoked (attempt : Z) (raised : option JsValue)
| BackedOff (attempt : Z) (delay : Z).

Section Retry.
Context {A : Type}.
Variable env : Env.
Variable fn : M A.
Variable o : RetryOpts.

(** The [while (attempt <= retries)] loop; [steps] is the ghost record,
    most recent first.  In the [catch] block, after [break] has been ruled
    out and the delay computed, the [console.warn] template reads
    [err.message]: on an [err] that is [undefined] this raises a [TypeError]
    out of the [catch] block and so out of the function.  Going round again
    on [emit (Sleep delay) w1] is [await sleep(delay); attempt++]. *)
Equations? retry_loop (attempt : Z) (lastError : JsValue) (w : World)
    (steps : list RetryStep) : Outcome A * World * list RetryStep
    by wf (Z.to_nat (retries o + 1 - attempt)) lt :=
  retry_loop attempt lastError w steps with Z_le_dec attempt (retries o) := {
    | right _ => (Throw lastError, w, steps)
    | left _ with fn w := {
        | (Return a, w1) => (Return a, w1, Invoked attempt None :: steps)
        | (Throw err, w1) with Z.eq_dec attempt (retries o) := {
            | left _ => (Throw err, w1, Invoked attempt (Some err) :: steps)
            | right _ with err := {
                | JsUndefined =>
                    (Throw (JsErr message_TypeError), w1,
                     Invoked attempt (Some JsUndefined) :: steps)
                | JsErr e =>
                    let delay := backoff_delay env o attempt (trace w1) in
                    retry_loop (attempt + 1) (JsErr e) (emit (Sleep delay) w1)
                      (BackedOff attempt delay
                         :: Invoked attempt (Some (JsErr e)) :: steps) } } } }.
Proof. lia. Qed.

Definition retry_run (w : World) : Outcome A * World * list RetryStep :=
  retry_loop 0 JsUndefined w [].

Definition retryOperation : M A :=
  fun w => fst (retry_run w).

(** The wrapper's own steps, in the order performed. *)
Definition retry_steps (w : World) : list RetryStep :=
  rev (snd (retry_run w)).

End Retry.

(** How many times [fn] was called, and the delays slept, in order. *)
Fixpoint invocations (steps : list RetryStep) : nat :=
  match steps with
  | [] => 0
  | Invoked _ _ :: rest => S (invocations rest)
  | BackedOff _ _ :: rest => invocations rest
  end.

Fixpoint delays (steps : list RetryStep) : list Z :=
  match steps with
  | [] => []
  | Invoked _ _ :: rest => delays rest
  | BackedOff _ d :: rest => d :: delays rest
  end.


(** ** The gateway's functions *)

Definition nl : string := String (ascii_of_nat 10) "".

(** [String.prototype.toLowerCase], on the ASCII letters. *)
Definition lower_ascii (c : ascii) : ascii :=
  let n := nat_of_ascii c in
  if (Nat.leb 65 n && Nat.leb n 90)%bool then ascii_of_nat (n + 32) else c.

Fixpoint toLowerCase (s : string) : string :=
  match s with
  | EmptyString => EmptyString
  | String c s' => String (lower_ascii c) (toLowerCase s')
  end.

(** One result of the batch endpoint. *)
Record OutcomeRecord := {
  projectKey : string;
  status : string;
  incident : option Incident;
  error : option string
}.

Inductive Body :=
| ErrorBody (error : string) (details : option string)
| BatchBody (message : string) (results : list OutcomeRecord)
| IncidentBody (message : string) (incident : Incident)
| MessageBody (message : string).

(** [res.status(code).json(body)]; [res.json] alone answers 200. *)
Record Response := {
  code : Z;
  body : Body
}.

(** The webhook's [req.body], as far as the handler reads it. *)
Record Project := {
  project_key : option string;
  project_name : option string
}.

Record QualityGate := {
  gate_status : option string
}.

Record WebhookBody := {
  project : option Project;
  qualityGate : option QualityGate
}.

Section Gateway.
Variable env : Env.

(** An awaited axios call: the request leaves the process, and the promise
    settles as the service decides. *)
Definition axios {A} (ev : Event) (answer : History -> Axios A) : M (option A) :=
  fun w =>
    match answer (trace w) with
    | Resolved d => (Return d, emit ev w)
    | Rejected e => (Throw (JsErr e), emit ev w)
    end.

(** A [catch (error)] block that starts by reading [error.response]. *)
Definition catching {A} (error : JsValue) (k : JsError -> M A) : M A :=
  match error with
  | JsErr e => k e
  | JsUndefined =>
      throw (JsErr (new_Error
        "Cannot read properties of undefined (reading 'response')"))
  end.

Definition getSonarQubeProject (key : string) : M (option SonarData) :=
  try_catch
    (axios (SonarSearch key) (fun h => sonar_get env h key))
    (fun error => catching error (fun e =>
       match response e with
       | Some r =>
           throw (JsErr (new_Error
             ("SonarQube API error: " ++ show_Z (resp_status r) ++ " - "
                ++ resp_statusText r)))
       | None =>
           if request e
           then throw (JsErr (new_Error
                  ("SonarQube API unreachable: " ++ message e)))
           else throw error
       end)).

(** [cachedToken && tokenExpiry && Date.now() < tokenExpiry - 300000];
    when it holds, the token that is returned. *)
Definition cache_hit (w : World) : option string :=
  match cachedToken w, tokenExpiry w with
  | Some tok, Some expiry =>
      if (truthy_str (Some tok) && truthy_num (Some expiry)
          && (Z.of_N (Date_now env (trace w)) <? expiry - 300000)%Z)%bool
      then Some tok
      else None
  | _, _ => None
  end.

(** The two assignments to the cache after a successful exchange. *)
Definition store_token (tok : string) (expiresIn : Z) : M unit :=
  fun w =>
    (Return tt,
     {| cachedToken := Some tok;
        tokenExpiry := Some (Z.of_N (Date_now env (trace w)) + expiresIn * 1000);
        trace := trace w |}).

(** [cachedToken = null; tokenExpiry = null]. *)
Definition clear_token : M unit :=
  fun w =>
    (Return tt,
     {| cachedToken := None; tokenExpiry := None; trace := trace w |}).

Definition getServiceNowToken : M string :=
  fun w =>
    match cache_hit w with
    | Some tok => (Return tok, w)
    | None =>
        try_catch
          (d <- axios OAuthExchange (oauth_post env) ;;
           match d with
           | Some {| access_token := Some tok; expires_in := e |} =>
               if truthy_str (Some tok)
               then
                 let expiresIn := if truthy_num e
                                  then match e with Some n => n | None => 1800 end
                                  else 1800 in
                 store_token tok expiresIn ;;;
                 ret tok
               else throw (JsErr (new_Error "ServiceNow token missing in response"))
           | _ => throw (JsErr (new_Error "ServiceNow token missing in response"))
           end)
          (fun error => catching error (fun e =>
             match response e with
             | Some r =>
                 throw (JsErr (new_Error
                   ("ServiceNow OAuth error: " ++ show_Z (resp_status r) ++ " - "
                      ++ tmpl (or_str (data_error (resp_data r))
                                      (Some (resp_statusText r))))))
             | None =>
                 if request e
                 then throw (JsErr (new_Error
                        ("ServiceNow OAuth unreachable: " ++ message e)))
                 else throw error
             end))
          w
    end.

(** [error.response?.status === 401]. *)
Definition is_401 (e : JsError) : bool :=
  match response e with
  | Some r => (resp_status r =? 401)%Z
  | None => false
  end.

Definition createServiceNowIncident (token : string) (payload : Payload) : M Incident :=
  try_catch
    (d <- axios (IncidentPost token payload)
                (fun h => incident_post env h token payload) ;;
     match d with
     | Some {| result := Some r |} => ret r
     | _ => throw (JsErr (new_Error
              "Incident creation failed: no result in response"))
     end)
    (fun error => catching error (fun e =>
       (if is_401 e then clear_token else ret tt) ;;;
       match response e with
       | Some r =>
           throw (JsErr (new_Error
             ("ServiceNow incident error: " ++ show_Z (resp_status r) ++ " - "
                ++ data_json (resp_data r))))
       | None =>
           if request e
           then throw (JsErr (new_Error
                  ("ServiceNow incident API unreachable: " ++ message e)))
           else throw error
       end)).

Definition getTransport : M TransportOptions :=
  let secure := String.eqb (toLowerCase (SMTP_SECURE env)) "true" in
  let options :=
    {| host := SMTP_HOST env;
       port := if truthy_str (SMTP_PORT env)
               then Number_of_string env (tmpl (SMTP_PORT env))
               else Some (if secure then 465 else 587);
       secure := secure;
       auth := match SMTP_USER env, SMTP_PASS env with
               | Some u, Some p =>
                   if (truthy_str (Some u) && truthy_str (Some p))%bool
                   then Some (u, p) else None
               | _, _ => None
               end |} in
  match createTransport env options with
  | Some e => throw (JsErr e)
  | None => ret options
  end.

(** [await transport.sendMail(mail)]. *)
Definition sendMail (transport : TransportOptions) (mail : Mail) : M unit :=
  fun w =>
    match transport_sendMail env (trace w) transport mail with
    | Some e => (Throw (JsErr e), emit (SendMail transport mail) w)
    | None => (Return tt, emit (SendMail transport mail) w)
    end.

Definition smtp_configured : bool :=
  (truthy_str (SMTP_HOST env) && truthy_str (EMAIL_FROM env)
   && truthy_str (EMAIL_TO env))%bool.

Definition sendIncidentEmail (incident : Incident) (key : string)
    (projectName : option string) : M unit :=
  if negb smtp_configured then ret tt
  else
    try_catch
      (transport <- getTransport ;;
       fun w =>
         let link := SERVICENOW_URL env ++ "/" ++ SERVICENOW_INCIDENT_UI_PATH env
                       ++ tmpl (sys_id incident) in
         let who := tmpl (or_str projectName (Some key)) in
         let subject := "Incident: " ++ tmpl (or_str (number incident) (sys_id incident))
                          ++ " • Project: " ++ who in
         let timestamp := Date_toISOString env (trace w) in
         let text := "Incident created for " ++ who ++ nl
                       ++ "Number: " ++ tmpl (number incident) ++ nl
                       ++ "Link: " ++ link ++ nl
                       ++ "Timestamp: " ++ timestamp in
         sendMail transport
           {| mail_from := EMAIL_FROM env; mail_to := EMAIL_TO env;
              subject := subject; text := text |} w)
      (fun error => get_message error ;;; ret tt).

(** *** POST /create-incidents *)

(** [projectData?.components?.[0]], when truthy. *)
Definition first_component (projectData : option SonarData) : option Component :=
  match projectData with
  | Some {| components := Some (Some c :: _) |} => Some c
  | _ => None
  end.

Definition batch_payload (component : Component) (key : string) : Payload :=
  {| short_description := "SonarQube issue: " ++ tmpl (name component);
     description := "Review analysis for " ++ tmpl (name component)
                      ++ " (" ++ key ++ ")";
     urgency := "3";
     impact := "3" |}.

Definition not_found_record (key : string) : OutcomeRecord :=
  {| projectKey := key; status := "not_found"; incident := None; error := None |}.

Definition created_record (key : string) (i : Incident) : OutcomeRecord :=
  {| projectKey := key; status := "incident_created";
     incident := Some {| number := number i; sys_id := sys_id i |};
     error := None |}.

Definition error_record (key : string) (msg : string) : OutcomeRecord :=
  {| projectKey := key; status := "error"; incident := None; error := Some msg |}.

(** One iteration of [for (const key of projectKeys)]: the array [results]
    comes in and goes out with what the iteration pushed. *)
Definition batch_item (token : string) (key : string)
    (results : list OutcomeRecord) : M (list OutcomeRecord) :=
  try_catch
    (projectData <- retryOperation env (getSonarQubeProject key)
                      (opts 2 ("sonarqube-" ++ key)) ;;
     match first_component projectData with
     | None => ret (results ++ [not_found_record key])%list
     | Some component =>
         let payload := batch_payload component key in
         i <- retryOperation env (createServiceNowIncident token payload)
                (opts 3 ("incident-" ++ key)) ;;
         sendIncidentEmail i key (name component) ;;;
         ret (results ++ [created_record key i])%list
     end)
    (fun e =>
       msg <- get_message e ;;
       ret (results ++ [error_record key msg])%list).

Fixpoint batch_loop (token : string) (keys : list string)
    (results : list OutcomeRecord) : M (list OutcomeRecord) :=
  match keys with
  | [] => ret results
  | key :: rest =>
      results' <- batch_item token key results ;;
      batch_loop token rest results'
  end.

(** [projectKeys] is [None] when [req.body.projectKeys] is not an array. *)
Definition create_incidents (projectKeys : option (list string)) : M Response :=
  match projectKeys with
  | None =>
      ret {| code := 400;
             body := ErrorBody "projectKeys must be non-empty array" None |}
  | Some keys =>
      if Nat.eqb (List.length keys) 0
      then ret {| code := 400;
                  body := ErrorBody "projectKeys must be non-empty array" None |}
      else if Nat.ltb 50 (List.length keys)
      then ret {| code := 400;
                  body := ErrorBody "projectKeys array too large (max 50)" None |}
      else
        try_catch
          (token <- retryOperation env getServiceNowToken
                      (opts 3 "servicenow-oauth") ;;
           results <- batch_loop token keys [] ;;
           ret {| code := 200; body := BatchBody "Batch processed" results |})
          (fun error =>
             msg <- get_message error ;;
             ret {| code := 500;
                    body := ErrorBody "Batch processing failed" (Some msg) |})
  end.

(** *** POST /sonarqube-webhook *)

(** [status !== 'OK']. *)
Definition not_OK (st : option string) : bool :=
  match st with
  | Some s => negb (String.eqb s "OK")
  | None => true
  end.

Definition webhook_payload (projectName : option string) (key : string)
    (st : option string) : Payload :=
  let who := tmpl (or_str projectName (Some key)) in
  {| short_description := "Quality Gate failed: " ++ who;
     description := "Project: " ++ who ++ nl ++ "Key: " ++ key ++ nl
                      ++ "Quality Gate Status: " ++ tmpl st;
     urgency := "2";
     impact := "2" |}.

Definition sonarqube_webhook (req : WebhookBody) : M Response :=
  try_catch
    (let key := match project req with Some p => project_key p | None => None end in
     let projectName := match project req with Some p => project_name p | None => None end in
     let st := match qualityGate req with Some g => gate_status g | None => None end in
     match key with
     | Some k =>
         if negb (truthy_str (Some k))
         then ret {| code := 400;
                     body := ErrorBody "Missing project key in webhook payload" None |}
         else if not_OK st
         then
           token <- retryOperation env getServiceNowToken
                      (opts 3 "servicenow-oauth") ;;
           let payload := webhook_payload projectName k st in
           i <- retryOperation env (createServiceNowIncident token payload)
                  (opts 3 ("incident-" ++ k)) ;;
           sendIncidentEmail i k projectName ;;;
           ret {| code := 200;
                  body := IncidentBody "Incident created from webhook"
                            {| number := number i; sys_id := sys_id i |} |}
         else ret {| code := 200;
                     body := MessageBody "Quality Gate OK, no action needed" |}
     | None =>
         ret {| code := 400;
                body := ErrorBody "Missing project key in webhook payload" None |}
     end)
    (fun error =>
       msg <- get_message error ;;
       ret {| code := 500;
              body := ErrorBody "Webhook processing failed" (Some msg) |}).

End Gateway.


(** ** Start-up validation *)

(** The names [validateEnv] requires, in the order of the source. *)
Definition required : list string :=
  ["SONARQUBE_URL"; "SONARQUBE_TOKEN"; "SERVICENOW_URL";
   "SERVICENOW_CLIENT_ID"; "SERVICENOW_CLIENT_SECRET"].

(** [required.filter(key => !process.env[key])]; [process.env] is a lookup
    from names to strings. *)
Definition missing_vars (process_env : string -> option string) : list string :=
  filter (fun key => negb (truthy_str (process_env key))) required.

Definition validateEnv (process_env : string -> option string) : Outcome unit :=
  let missing := missing_vars process_env in
  if Nat.ltb 0 (List.length missing)
  then Throw (JsErr (new_Error
         ("Missing required environment variables: " ++ String.concat ", " missing)))
  else Return tt.

(** The argument of [app.listen]: the string found in [process.env.PORT],
    or the number 3000 when the variable is undefined. *)
Inductive Port :=
| PortString (s : string)
| PortNumber (n : Z).

(** How the module's last statement leaves the process. *)
Inductive Startup :=
| Listening (port : Port)
| Exited (exit_code : Z).

(** [try { validateEnv(); app.listen(PORT, ...) } catch { process.exit(1) }];
    [listen] tells whether [app.listen] throws for a port (a port number out
    of range, for one). *)
Definition startup (listen : Port -> option JsError)
    (process_env : string -> option string) : Startup :=
  match validateEnv process_env with
  | Return _ =>
      let port := match process_env "PORT" with
                  | Some s => PortString s
                  | None => PortNumber 3000
                  end in
      match listen port with
      | None => Listening port
      | Some _ => Exited 1
      end
  | Throw _ => Exited 1
  end.

(** ** GET /healthz *)

(** [details.checks.sonarqube]. *)
Record SonarCheck := {
  reachable : bool;
  version : option string;
  sonar_error : option string
}.

(** [details.checks.servicenow]. *)
Record ServiceNowCheck := {
  oauth_ok : bool;
  oauth_error : option string
}.

(** The answer of the health endpoint: the base object, and the two checks
    when the request was a deep one. *)
Record HealthResponse := {
  health_code : Z;
  health_status : string;
  uptime_sec : Z;
  timestamp : string;
  checks : option (SonarCheck * ServiceNowCheck)
}.

(** What the health endpoint reads beyond [Env]: [Math.round(process.uptime())]
    and the settlement of the GET on [/api/server/version].  That request is
    the one effect of the program that [Event] has no constructor for; it is
    answered here and leaves no entry in the history. *)
Record HealthEnv := {
  process_uptime : History -> Z;
  version_get : History -> Axios string
}.

Section Health.
Variable env : Env.
Variable henv : HealthEnv.

(** The first [try]/[catch] of the deep check. *)
Definition check_sonarqube : M SonarCheck :=
  try_catch
    (fun w =>
       match version_get henv (trace w) with
       | Resolved d =>
           (Return {| reachable := true; version := d; sonar_error := None |}, w)
       | Rejected e => (Throw (JsErr e), w)
       end)
    (fun e =>
       msg <- get_message e ;;
       ret {| reachable := false; version := None; sonar_error := Some msg |}).

(** The second one; [Boolean(token)] is the truthiness of the token. *)
Definition check_servicenow : M ServiceNowCheck :=
  try_catch
    (token <- getServiceNowToken env ;;
     ret {| oauth_ok := truthy_str (Some token); oauth_error := None |})
    (fun e =>
       msg <- get_message e ;;
       ret {| oauth_ok := false; oauth_error := Some msg |}).

(** [deep] is [req.query.deep]. *)
Definition healthz (deep : option string) : M HealthResponse :=
  fun w =>
    let is_deep :=
      String.eqb (toLowerCase (tmpl (or_str deep (Some "")))) "true" in
    let uptime := process_uptime henv (trace w) in
    let stamp := Date_toISOString env (trace w) in
    if negb is_deep
    then (Return {| health_code := 200; health_status := "ok";
                    uptime_sec := uptime; timestamp := stamp;
                    checks := None |}, w)
    else
      (sq <- check_sonarqube ;;
       sn <- check_servicenow ;;
       let statusCode := if (reachable sq && oauth_ok sn)%bool then 200 else 503 in
       ret {| health_code := statusCode; health_status := "ok";
              uptime_sec := uptime; timestamp := stamp;
              checks := Some (sq, sn) |}) w.

End Health.
(** * Vocabulary of the statements *)

(** ** The retry loop as a relation *)

Section RetryRelation.
Context {A : Type}.
Variable env : Env.
Variable fn : M A.
Variable o : RetryOpts.

(** [retry_exec attempt lastError w new r w']: entering the loop test with
    these values, the wrapper performs the steps [new] (in order) and
    leaves with [r] in world [w']. *)
Inductive retry_exec : Z -> JsValue -> World -> list RetryStep ->
                       Outcome A -> World -> Prop :=
| exec_exit attempt lastError w :
    retries o < attempt ->
    retry_exec attempt lastError w [] (Throw lastError) w
| exec_return attempt lastError w a w1 :
    attempt <= retries o ->
    fn w = (Return a, w1) ->
    retry_exec attempt lastError w [Invoked attempt None] (Return a) w1
| exec_exhausted attempt lastError w err w1 :
    attempt = retries o ->
    fn w = (Throw err, w1) ->
    retry_exec attempt lastError w [Invoked attempt (Some err)] (Throw err) w1
| exec_unreadable attempt lastError w w1 :
    attempt < retries o ->
    fn w = (Throw JsUndefined, w1) ->
    retry_exec attempt lastError w [Invoked attempt (Some JsUndefined)]
      (Throw (JsErr message_TypeError)) w1
| exec_again attempt lastError w e w1 new r w' :
    attempt < retries o ->
    fn w = (Throw (JsErr e), w1) ->
    retry_exec (attempt + 1) (JsErr e)
      (emit (Sleep (backoff_delay env o attempt (trace w1))) w1) new r w' ->
    retry_exec attempt lastError w
      (Invoked attempt (Some (JsErr e))
         :: BackedOff attempt (backoff_delay env o attempt (trace w1)) :: new)
      r w'.

End RetryRelation.

(** The ghost record replayed on the world: every [Invoked] entry is a call
    of [fn] in the world reached so far, with the outcome recorded, and every
    [BackedOff] entry is a [Sleep] of that delay emitted to the world; [w']
    is where this ends. *)
Fixpoint replays {A} (fn : M A) (steps : list RetryStep) (w w' : World) : Prop :=
  match steps with
  | [] => w' = w
  | Invoked _ raised :: rest =>
      match raised with
      | Some v => fst (fn w) = Throw v
      | None => exists a, fst (fn w) = Return a
      end
      /\ replays fn rest (snd (fn w)) w'
  | BackedOff _ d :: rest => replays fn rest (emit (Sleep d) w) w'
  end.

(** ** Cache and history *)

Definition same_cache (w w' : World) : Prop :=
  cachedToken w' = cachedToken w /\ tokenExpiry w' = tokenExpiry w.

Definition cache_cleared (w : World) : Prop :=
  cachedToken w = None /\ tokenExpiry w = None.

(** The events of [w'] that are not yet in [w], most recent first. *)
Definition added (w w' : World) (evs : list Event) : Prop :=
  trace w' = (evs ++ trace w)%list.

(** A call to the ticketing service: the OAuth exchange or the incident POST. *)
Definition is_ticketing (ev : Event) : bool :=
  match ev with
  | OAuthExchange | IncidentPost _ _ => true
  | _ => false
  end.

Definition is_Error (v : JsValue) : Prop := exists e, v = JsErr e.

(** The token request settles successfully with a usable token. *)
Definition granted (a : Axios OAuthData) : option (string * Z) :=
  match a with
  | Resolved (Some d) =>
      match access_token d with
      | Some tok =>
          if truthy_str (Some tok)
          then Some (tok, if truthy_num (expires_in d)
                          then match expires_in d with Some n => n | None => 1800 end
                          else 1800)
          else None
      | None => None
      end
  | _ => None
  end.

(** The incident POST was answered with status 401. *)
Definition answered_401 (a : Axios IncidentData) : bool :=
  match a with
  | Rejected e => is_401 e
  | Resolved _ => false
  end.

(** ** Processing one project key *)

(** Whether the lookup or the ticket creation for [key] ends in a raise,
    each under its retry policy. *)
Definition item_fails (env : Env) (token key : string) (w : World) : bool :=
  match retryOperation env (getSonarQubeProject env key)
          (opts 2 ("sonarqube-" ++ key)) w with
  | (Throw _, _) => true
  | (Return d, w1) =>
      match first_component d with
      | None => false
      | Some c =>
          match retryOperation env
                  (createServiceNowIncident env token (batch_payload c key))
                  (opts 3 ("incident-" ++ key)) w1 with
          | (Throw _, _) => true
          | (Return _, _) => false
          end
      end
  end.

(** The histories that differ from [trace w] only by events satisfying [P]. *)
Definition only_added (P : Event -> bool) (w w' : World) : Prop :=
  exists evs, added w w' evs /\ forallb P evs = true.

Definition is_lookup_or_sleep (ev : Event) : bool :=
  match ev with
  | SonarSearch _ | Sleep _ => true
  | _ => false
  end.

Definition is_incident_or_sleep (token : string) (payload : Payload) (ev : Event) : bool :=
  match ev with
  | IncidentPost t _ => String.eqb t token
  | Sleep _ => true
  | _ => false
  end.

(** [results] in front of what a computation returns. *)
Definition prepend {A} (results : list A) (r : Outcome (list A) * World) :
    Outcome (list A) * World :=
  match r with
  | (Return recs, w) => (Return (results ++ recs)%list, w)
  | (Throw v, w) => (Throw v, w)
  end.

(** ** Concrete scenarios *)

Module Scenario.

Definition unauthorized : JsError :=
  {| message := "Request failed with status code 401";
     response := Some {| resp_status := 401;
                         resp_statusText := "Unauthorized";
                         resp_data := {| data_error := None;
                                         data_json := "{}" |} |};
     request := true |}.

Definition unreachable : JsError :=
  {| message := "connect ECONNREFUSED";
     response := None;
     request := true |}.

Definition ticket : Incident :=
  {| number := Some "INC0010001"; sys_id := Some "46d44a5dc0a8010e" |}.

(** The quality service knows every project except ["empty"] (no
    component) and ["down"] (no answer).  The ticketing service rejects
    the token ["stale"] with 401 and accepts any other.  The token endpoint
    grants ["fresh"], or does not answer when [oauth_up] is false.  Mail
    is configured and every send fails. *)
Definition env (oauth_up : bool) : Env :=
  {| SERVICENOW_URL := "https://snow.example";
     SERVICENOW_INCIDENT_UI_PATH := "nav_to.do?uri=incident.do?sys_id=";
     SMTP_HOST := Some "smtp.example";
     SMTP_PORT := None;
     SMTP_SECURE := "false";
     SMTP_USER := None;
     SMTP_PASS := None;
     EMAIL_FROM := Some "gateway@example";
     EMAIL_TO := Some "team@example";
     Date_now := fun h => (1700000000000 + 1000 * N.of_nat (List.length h))%N;
     Date_toISOString := fun _ => "2023-11-14T22:13:20.000Z";
     Math_random := fun h => (2 ^ 52 + N.of_nat (List.length h))%N;
     Number_of_string := fun _ => None;
     sonar_get := fun _ key =>
       if String.eqb key "empty" then Resolved (Some {| components := Some [] |})
       else if String.eqb key "down" then Rejected unreachable
       else Resolved (Some {| components := Some [Some {| name := Some key |}] |});
     oauth_post := fun _ =>
       if oauth_up
       then Resolved (Some {| access_token := Some "fresh"; expires_in := Some 3600 |})
       else Rejected unreachable;
     incident_post := fun _ token _ =>
       if String.eqb token "stale" then Rejected unauthorized
       else Resolved (Some {| result := Some ticket |});
     createTransport := fun _ => None;
     transport_sendMail := fun _ _ _ => Some (new_Error "SMTP connection refused") |}.

(** Nothing cached, nothing done yet. *)
Definition fresh_world : World :=
  {| cachedToken := None; tokenExpiry := None; trace := [] |}.

(** The cache holds a token that is far from its expiry, but that the
    ticketing service no longer accepts. *)
Definition stale_world : World :=
  {| cachedToken := Some "stale";
     tokenExpiry := Some 1700003600000;
     trace := [] |}.

Definition failed_gate : WebhookBody :=
  {| project := Some {| project_key := Some "project1";
                        project_name := Some "Project One" |};
     qualityGate := Some {| gate_status := Some "ERROR" |} |}.

Definition failed_gate_payload : Payload :=
  webhook_payload (Some "Project One") "project1" (Some "ERROR").

(** An operation that always raises the same error. *)
Definition failing : M unit := throw (JsErr unreachable).

End Scenario.

(** Whether a webhook outcome reports a created ticket. *)
Definition created_ticket (r : Outcome Response) : bool :=
  match r with
  | Return {| body := IncidentBody _ _ |} => true
  | _ => false
  end.

(** [qualityGate?.status]. *)
Definition gate_of (req : WebhookBody) : option string :=
  match qualityGate req with
  | Some g => gate_status g
  | None => None
  end.

(** ** Independence from the cache *)

(** A computation whose result and requests are decided by the history
    alone: it never reads the token cache. *)
Definition cache_blind {A} (m : M A) : Prop :=
  forall w w',
    trace w = trace w' ->
    fst (m w) = fst (m w') /\ trace (snd (m w)) = trace (snd (m w')).

(** ** Vocabulary of the further properties *)

(** The steps of one run of the wrapper, read from attempt number [k] on:
    calls numbered consecutively, each one but the last having raised and
    being followed by one sleep. *)
Fixpoint numbered (k : Z) (steps : list RetryStep) : Prop :=
  match steps with
  | [Invoked a _] => a = k
  | Invoked a (Some _) :: BackedOff b _ :: rest =>
      a = k /\ b = k /\ numbered (k + 1) rest
  | _ => False
  end.

Definition total (l : list Z) : Z := fold_right Z.add 0 l.

(** Both cache variables are [null], or both are set and the token is not
    the empty string. *)
Definition cache_paired (w : World) : Prop :=
  cache_cleared w
  \/ exists tok expiry,
       cachedToken w = Some tok /\ tok <> "" /\ tokenExpiry w = Some expiry.

(** [w'] is reached from [w] without breaking the pairing. *)
Definition keeps (w w' : World) : Prop := cache_paired w -> cache_paired w'.

Definition count_events (P : Event -> bool) (evs : list Event) : nat :=
  List.length (filter P evs).

Definition is_search (ev : Event) : bool :=
  match ev with SonarSearch _ => true | _ => false end.

Definition is_exchange (ev : Event) : bool :=
  match ev with OAuthExchange => true | _ => false end.

Definition is_post (ev : Event) : bool :=
  match ev with IncidentPost _ _ => true | _ => false end.

Definition is_mail (ev : Event) : bool :=
  match ev with SendMail _ _ => true | _ => false end.

Definition is_sleep (ev : Event) : bool :=
  match ev with Sleep _ => true | _ => false end.

(** What the webhook may send: no project search, and incident POSTs of
    urgency and impact ["2"] only. *)
Definition webhook_event (ev : Event) : bool :=
  match ev with
  | SonarSearch _ => false
  | IncidentPost _ p => (String.eqb (urgency p) "2" && String.eqb (impact p) "2")%bool
  | _ => true
  end.

(** What the batch loop may send for [keys] with [token]: searches for these
    keys, incident POSTs of urgency and impact ["3"] carrying [token], mails
    and sleeps, and no OAuth exchange. *)
Definition batch_event (token : string) (keys : list string) (ev : Event) : bool :=
  match ev with
  | SonarSearch k => existsb (String.eqb k) keys
  | IncidentPost t p =>
      (String.eqb t token && String.eqb (urgency p) "3"
       && String.eqb (impact p) "3")%bool
  | OAuthExchange => false
  | _ => true
  end.

(** Upper bounds on the project searches, OAuth exchanges, incident POSTs
    and mails among [evs]. *)
Definition budget (searches exchanges posts mails : nat) (evs : list Event) : Prop :=
  (count_events is_search evs <= searches)%nat
  /\ (count_events is_exchange evs <= exchanges)%nat
  /\ (count_events is_post evs <= posts)%nat
  /\ (count_events is_mail evs <= mails)%nat.

(** A computation that sends at most one event, of kind [Q], and never
    sleeps. *)
Definition one_shot {A} (Q : Event -> bool) (m : M A) : Prop :=
  forall w,
    trace (snd (m w)) = trace w
    \/ exists ev, Q ev = true /\ is_sleep ev = false
                  /\ trace (snd (m w)) = ev :: trace w.

Definition is_search_for (key : string) (ev : Event) : bool :=
  match ev with SonarSearch k => String.eqb k key | _ => false end.

Definition payload_eqb (p q : Payload) : bool :=
  (String.eqb (short_description p) (short_description q)
   && String.eqb (description p) (description q)
   && String.eqb (urgency p) (urgency q)
   && String.eqb (impact p) (impact q))%bool.

Definition is_post_of (token : string) (payload : Payload) (ev : Event) : bool :=
  match ev with
  | IncidentPost t p => (String.eqb t token && payload_eqb p payload)%bool
  | _ => false
  end.

(** ** Further scenarios *)

Module Cases.

(** [e] with another token endpoint. *)
Definition with_oauth (e : Env) (answer : History -> Axios OAuthData) : Env :=
  {| SERVICENOW_URL := SERVICENOW_URL e;
     SERVICENOW_INCIDENT_UI_PATH := SERVICENOW_INCIDENT_UI_PATH e;
     SMTP_HOST := SMTP_HOST e;
     SMTP_PORT := SMTP_PORT e;
     SMTP_SECURE := SMTP_SECURE e;
     SMTP_USER := SMTP_USER e;
     SMTP_PASS := SMTP_PASS e;
     EMAIL_FROM := EMAIL_FROM e;
     EMAIL_TO := EMAIL_TO e;
     Date_now := Date_now e;
     Date_toISOString := Date_toISOString e;
     Math_random := Math_random e;
     Number_of_string := Number_of_string e;
     sonar_get := sonar_get e;
     oauth_post := answer;
     incident_post := incident_post e;
     createTransport := createTransport e;
     transport_sendMail := transport_sendMail e |}.

(** [e] with another incident endpoint. *)
Definition with_incident (e : Env)
    (answer : History -> string -> Payload -> Axios IncidentData) : Env :=
  {| SERVICENOW_URL := SERVICENOW_URL e;
     SERVICENOW_INCIDENT_UI_PATH := SERVICENOW_INCIDENT_UI_PATH e;
     SMTP_HOST := SMTP_HOST e;
     SMTP_PORT := SMTP_PORT e;
     SMTP_SECURE := SMTP_SECURE e;
     SMTP_USER := SMTP_USER e;
     SMTP_PASS := SMTP_PASS e;
     EMAIL_FROM := EMAIL_FROM e;
     EMAIL_TO := EMAIL_TO e;
     Date_now := Date_now e;
     Date_toISOString := Date_toISOString e;
     Math_random := Math_random e;
     Number_of_string := Number_of_string e;
     sonar_get := sonar_get e;
     oauth_post := oauth_post e;
     incident_post := answer;
     createTransport := createTransport e;
     transport_sendMail := transport_sendMail e |}.

(** The token endpoint grants tokens that live one minute. *)
Definition short_lived : Env :=
  with_oauth (Scenario.env true)
    (fun _ => Resolved (Some {| access_token := Some "brief"; expires_in := Some 60 |})).

(** The token endpoint answers 200 without a token, the incident endpoint
    answers 201 without a result. *)
Definition hollow : Env :=
  with_incident
    (with_oauth (Scenario.env true)
       (fun _ => Resolved (Some {| access_token := None; expires_in := Some 3600 |})))
    (fun _ _ _ => Resolved (Some {| result := None |})).

(** An operation that rejects with [undefined]. *)
Definition rejecting_undefined : M unit := throw JsUndefined.

(** The default policy with the jitter switched off. *)
Definition no_jitter : RetryOpts :=
  {| retries := 3; baseDelayMs := 500; factor := 2; jitterMs := 0; label := "op" |}.

(** A token that has passed its expiry. *)
Definition expired_world : World :=
  {| cachedToken := Some "old";
     tokenExpiry := Some 1600000000000;
     trace := [] |}.

(** All five required variables set, and no [PORT]. *)
Definition full_env (key : string) : option string :=
  if existsb (String.eqb key) required then Some "x" else None.

(** [SONARQUBE_TOKEN] set to the empty string, [SERVICENOW_URL] unset. *)
Definition partial_env (key : string) : option string :=
  if String.eqb key "SONARQUBE_TOKEN" then Some ""
  else if String.eqb key "SERVICENOW_URL" then None
  else full_env key.

Definition sonar_up : HealthEnv :=
  {| process_uptime := fun h => 42 + Z.of_nat (List.length h);
     version_get := fun _ => Resolved (Some "10.4.1") |}.

Definition sonar_down : HealthEnv :=
  {| process_uptime := fun _ => 42;
     version_get := fun _ => Rejected Scenario.unreachable |}.

End Cases.

(** * Properties *)

(** ** Truthiness *)

Lemma truthy_str_Some s : s <> "" -> truthy_str (Some s) = true.
Proof.
  intros H. unfold truthy_str.
  destruct (String.eqb_spec s ""); [contradiction | reflexivity].
Qed.

Lemma truthy_str_true o :
  truthy_str o = true -> exists s, o = Some s /\ s <> "".
Proof.
  destruct o as [s |]; simpl; [| discriminate].
  destruct (String.eqb_spec s ""); [discriminate |].
  intros _. now exists s.
Qed.

(** ** The retry loop *)

Section RetryFacts.
Context {A : Type}.
Variable env : Env.
Variable fn : M A.
Variable o : RetryOpts.


Lemma retry_loop_exec attempt lastError w steps :
  exists new r w',
    retry_loop env fn o attempt lastError w steps = (r, w', rev new ++ steps)%list
    /\ retry_exec env fn o attempt lastError w new r w'.
Proof.
  funelim (retry_loop env fn o attempt lastError w steps).
  - exists [], (Throw lastError), w. split; [reflexivity |].
    apply exec_exit. lia.
  - exists [Invoked attempt None], (Return a), w1. split; [reflexivity |].
    now apply exec_return.
  - exists [Invoked attempt (Some err)], (Throw err), w1. split; [reflexivity |].
    now apply exec_exhausted.
  - exists [Invoked attempt (Some JsUndefined)], (Throw (JsErr message_TypeError)), w1.
    split; [reflexivity |].
    apply exec_unreadable; [lia | assumption].
  - match goal with
    | IH : exists _ _ _, _ /\ _ |- _ => destruct IH as (new & r & w' & Hrun & Hexec)
    end.
    exists (Invoked attempt (Some (JsErr e))
              :: BackedOff attempt (backoff_delay env o attempt (trace w1)) :: new),
           r, w'.
    split.
    + rewrite Hrun. simpl. rewrite <- !app_assoc. reflexivity.
    + apply exec_again; [lia | assumption | assumption].
Qed.

(** The function is the relation. *)
Lemma retry_run_exec w :
  retry_exec env fn o 0 JsUndefined w (retry_steps env fn o w)
    (fst (retryOperation env fn o w)) (snd (retryOperation env fn o w)).
Proof.
  unfold retry_steps, retryOperation, retry_run.
  destruct (retry_loop_exec 0 JsUndefined w []) as (new & r & w' & Hrun & Hexec).
  rewrite Hrun. simpl. rewrite app_nil_r, rev_involutive. exact Hexec.
Qed.

Lemma exec_invocations attempt lastError w new r w' :
  retry_exec env fn o attempt lastError w new r w' ->
  attempt <= retries o ->
  (1 <= invocations new)%nat
  /\ Z.of_nat (invocations new) <= retries o - attempt + 1.
Proof.
  induction 1; intros Hle; simpl; try lia.
Qed.

(** The record tells the truth about the world. *)
Lemma exec_replays attempt lastError w new r w' :
  retry_exec env fn o attempt lastError w new r w' ->
  replays fn new w w'.
Proof.
  induction 1; simpl.
  - reflexivity.
  - rewrite H0. simpl. split; [now exists a | reflexivity].
  - rewrite H0. simpl. split; reflexivity.
  - rewrite H0. simpl. split; reflexivity.
  - rewrite H0. simpl. split; [reflexivity | exact IHretry_exec].
Qed.

(** When every call that failed before the last attempt raised an [Error],
    the loop went to the end and raised what the last call raised. *)
Lemma exec_throw attempt lastError w new r w' :
  retry_exec env fn o attempt lastError w new r w' ->
  attempt <= retries o ->
  (forall k v0, In (Invoked k (Some v0)) new -> k < retries o -> is_Error v0) ->
  forall v, r = Throw v ->
    Z.of_nat (invocations new) = retries o - attempt + 1
    /\ (exists earlier, new = earlier ++ [Invoked (retries o) (Some v)])%list
    /\ (exists w_last, fn w_last = (Throw v, w')).
Proof.
  induction 1; intros Hle Herr v Hv.
  - lia.
  - discriminate.
  - injection Hv as ->. subst attempt. simpl. repeat split.
    + lia.
    + exists []. reflexivity.
    + now exists w.
  - destruct (Herr attempt JsUndefined (or_introl eq_refl) H) as (e & He).
    discriminate.
  - destruct (IHretry_exec ltac:(lia)
                (fun k v0 Hin => Herr k v0 (or_intror (or_intror Hin))) v Hv)
      as (Hn & (earlier & ->) & Hlast).
    simpl. repeat split.
    + lia.
    + now exists (Invoked attempt (Some (JsErr e))
                   :: BackedOff attempt (backoff_delay env o attempt (trace w1))
                   :: earlier).
    + exact Hlast.
Qed.

(** What the loop raises is what a call of [fn] raised, or the [TypeError]
    of a call that raised [undefined] before the last attempt. *)
Lemma exec_raises attempt lastError w new r w' :
  retry_exec env fn o attempt lastError w new r w' ->
  attempt <= retries o ->
  forall v, r = Throw v ->
    (exists w_last, fn w_last = (Throw v, w'))
    \/ (v = JsErr message_TypeError
        /\ exists w_last, fn w_last = (Throw JsUndefined, w')).
Proof.
  induction 1; intros Hle v Hv.
  - lia.
  - discriminate.
  - injection Hv as ->. left. now exists w.
  - injection Hv as <-. right. split; [reflexivity | now exists w].
  - apply IHretry_exec; [lia | exact Hv].
Qed.

Lemma exec_return_last attempt lastError w new r w' :
  retry_exec env fn o attempt lastError w new r w' ->
  forall a, r = Return a ->
    (exists earlier k, new = earlier ++ [Invoked k None])%list
    /\ (exists w_last, fn w_last = (Return a, w')).
Proof.
  induction 1; intros a0 Ha; try discriminate.
  - injection Ha as ->. split.
    + now exists [], attempt.
    + now exists w.
  - destruct (IHretry_exec a0 Ha) as ((earlier & k & ->) & Hlast).
    split; [| exact Hlast].
    now exists (Invoked attempt (Some (JsErr e))
                  :: BackedOff attempt (backoff_delay env o attempt (trace w1))
                  :: earlier), k.
Qed.

(** Without a single evaluation of [fn] the loop can only raise the
    initial [lastError]. *)
Lemma exec_skipped attempt lastError w new r w' :
  retry_exec env fn o attempt lastError w new r w' ->
  retries o < attempt ->
  new = [] /\ r = Throw lastError /\ w' = w.
Proof.
  destruct 1; intros; try lia. auto.
Qed.

(** Rounding to 53 bits moves a number by at most half a unit in the last
    place, and not at all below [2^53]. *)
Lemma round53_near x :
  0 <= x ->
  0 <= round53 x
  /\ (x < 2 ^ 53 -> round53 x = x)
  /\ (2 ^ 53 <= x -> 2 ^ 53 * (round53 x - x) <= x).
Proof.
  intros Hx. unfold round53.
  destruct (Z.ltb_spec x (2 ^ 53)) as [Hlt | Hge].
  { repeat split; [exact Hx | lia]. }
  assert (Hpos : 0 < x) by lia.
  pose proof (Z.log2_spec x Hpos) as [Hlo Hhi].
  assert (H53 : 53 <= Z.log2 x).
  { apply Z.log2_le_pow2; [exact Hpos | exact Hge]. }
  set (s := Z.log2 x - 52) in *.
  assert (Hs : 0 < s) by (subst s; lia).
  assert (H2s : 0 < 2 ^ s) by (apply Z.pow_pos_nonneg; lia).
  assert (Hsplit : 2 ^ Z.log2 x = 2 ^ s * 2 ^ 52).
  { rewrite <- Z.pow_add_r by lia. f_equal. subst s. lia. }
  pose proof (Z.div_mod x (2 ^ s) ltac:(lia)) as Hdm.
  pose proof (Z.mod_pos_bound x (2 ^ s) H2s) as Hr.
  set (q := x / 2 ^ s) in *. set (r := x mod 2 ^ s) in *.
  assert (Hq : 0 <= q) by (subst q; apply Z.div_pos; lia).
  assert (H2 : (2 : Z) ^ 53 = 2 * 2 ^ 52) by reflexivity.
  assert (H52 : 0 < (2 : Z) ^ 52) by reflexivity.
  destruct ((2 ^ s <? 2 * r) || ((2 ^ s =? 2 * r) && Z.odd q))%bool eqn:Hup.
  - assert (Hhalf : 2 ^ s <= 2 * r).
    { apply orb_true_iff in Hup as [Hup | Hup].
      - apply Z.ltb_lt in Hup. lia.
      - apply andb_true_iff in Hup as [Hup _]. apply Z.eqb_eq in Hup. lia. }
    repeat split; [nia | lia |].
    intros _. nia.
  - repeat split; [nia | lia |].
    intros _. nia.
Qed.

Lemma jitter_range (h : History) :
  0 < jitterMs o ->
  0 <= jitter env (jitterMs o) h < jitterMs o.
Proof.
  intros Hj. unfold jitter. cbv zeta.
  assert (Hp : 0 < 2 ^ 53) by reflexivity.
  pose proof (Z.mod_pos_bound (Z.of_N (Math_random env h)) (2 ^ 53) Hp) as Hk.
  set (k := Z.of_N (Math_random env h) mod 2 ^ 53) in *.
  rewrite (Z.sgn_pos _ Hj), Z.mul_1_l, (Z.abs_eq (jitterMs o)) by lia.
  assert (Hx : 0 <= k * jitterMs o) by nia.
  destruct (round53_near (k * jitterMs o) Hx) as (Hnn & Hsmall & Hbig).
  split.
  - apply Z.div_pos; lia.
  - apply Z.div_lt_upper_bound; [lia |].
    destruct (Z.lt_ge_cases (k * jitterMs o) (2 ^ 53)) as [Hlt | Hge].
    + rewrite (Hsmall Hlt). nia.
    + specialize (Hbig Hge). nia.
Qed.

Lemma exec_delays attempt lastError w new r w' :
  retry_exec env fn o attempt lastError w new r w' ->
  0 < jitterMs o ->
  List.length (delays new) = pred (invocations new)
  /\ forall i d,
      nth_error (delays new) i = Some d ->
      exists j, 0 <= j < jitterMs o
                /\ d = baseDelayMs o * factor o ^ (attempt + Z.of_nat i) + j.
Proof.
  induction 1; intros Hj; simpl.
  - split; [reflexivity |]. intros [|i] d Hd; discriminate.
  - split; [reflexivity |]. intros [|i] d Hd; discriminate.
  - split; [reflexivity |]. intros [|i] d Hd; discriminate.
  - split; [reflexivity |]. intros [|i] d Hd; discriminate.
  - destruct (IHretry_exec Hj) as [Hlen Hnth].
    split.
    + rewrite Hlen.
      destruct (exec_invocations _ _ _ _ _ _ H1 ltac:(lia)) as [Hpos _].
      destruct (invocations new); [lia | reflexivity].
    + intros [|i] d Hd; simpl in Hd.
      * injection Hd as <-.
        exists (jitter env (jitterMs o) (trace w1)).
        split; [now apply jitter_range |].
        unfold backoff_delay. now rewrite Z.add_0_r.
      * destruct (Hnth i d Hd) as (j & Hjr & ->).
        exists j. split; [exact Hjr |].
        do 3 f_equal. lia.
Qed.

(** Whatever every single call of [fn] maintains, and the backoff sleep
    maintains, the whole wrapper maintains. *)
Lemma exec_preserves (R : World -> World -> Prop) :
  (forall w, R w w) ->
  (forall w1 w2 w3, R w1 w2 -> R w2 w3 -> R w1 w3) ->
  (forall w ms, R w (emit (Sleep ms) w)) ->
  (forall w, R w (snd (fn w))) ->
  forall attempt lastError w new r w',
    retry_exec env fn o attempt lastError w new r w' -> R w w'.
Proof.
  intros Hrefl Htrans Hsleep Hfn.
  induction 1.
  - apply Hrefl.
  - specialize (Hfn w). now rewrite H0 in Hfn.
  - specialize (Hfn w). now rewrite H0 in Hfn.
  - specialize (Hfn w). now rewrite H0 in Hfn.
  - specialize (Hfn w). rewrite H0 in Hfn. simpl in Hfn.
    eapply Htrans; [exact Hfn |].
    eapply Htrans; [apply Hsleep | exact IHretry_exec].
Qed.

Lemma retryOperation_preserves (R : World -> World -> Prop) :
  (forall w, R w w) ->
  (forall w1 w2 w3, R w1 w2 -> R w2 w3 -> R w1 w3) ->
  (forall w ms, R w (emit (Sleep ms) w)) ->
  (forall w, R w (snd (fn w))) ->
  forall w, R w (snd (retryOperation env fn o w)).
Proof.
  intros Hrefl Htrans Hsleep Hfn w.
  eapply exec_preserves; eauto using retry_run_exec.
Qed.

Lemma exec_numbered attempt lastError w new r w' :
  retry_exec env fn o attempt lastError w new r w' ->
  attempt <= retries o ->
  numbered attempt new.
Proof.
  induction 1; intros Hle; simpl.
  - lia.
  - reflexivity.
  - reflexivity.
  - reflexivity.
  - repeat split. apply IHretry_exec. lia.
Qed.

(** With a non-negative retry count, what the wrapper raises is an [Error]
    as soon as [fn] raises nothing else. *)
Lemma retryOperation_raises w v w' :
  0 <= retries o ->
  (forall w0 v0 w1, fn w0 = (Throw v0, w1) -> is_Error v0) ->
  retryOperation env fn o w = (Throw v, w') ->
  is_Error v.
Proof.
  intros Hr Hfn Hrun.
  pose proof (retry_run_exec w) as Hexec. rewrite Hrun in Hexec. simpl in Hexec.
  destruct (exec_raises _ _ _ _ _ _ Hexec ltac:(lia) v eq_refl)
    as [(w0 & Hlast) | (-> & _)].
  - exact (Hfn _ _ _ Hlast).
  - now exists message_TypeError.
Qed.

End RetryFacts.

(** ** The three downstream calls and the notification, one call at a time *)


Ltac unfold_monad :=
  unfold bind, try_catch, ret, throw, axios, catching, get_message, sleep,
    clear_token, store_token, sendMail, emit in *.

Lemma same_cache_refl w : same_cache w w.
Proof. split; reflexivity. Qed.

Lemma same_cache_trans w1 w2 w3 :
  same_cache w1 w2 -> same_cache w2 w3 -> same_cache w1 w3.
Proof. intros [? ?] [? ?]. split; congruence. Qed.

Lemma same_cache_emit w ev : same_cache w (emit ev w).
Proof. split; reflexivity. Qed.

Create HintDb gateway.
#[local] Hint Resolve same_cache_refl same_cache_emit : gateway.

Section CallFacts.
Variable env : Env.

Lemma getSonarQubeProject_run key w :
  exists r,
    getSonarQubeProject env key w = (r, emit (SonarSearch key) w)
    /\ (forall v, r = Throw v -> is_Error v)
    /\ (forall d, r = Return d <-> sonar_get env (trace w) key = Resolved d).
Proof.
  unfold getSonarQubeProject. unfold_monad.
  destruct (sonar_get env (trace w) key) as [d | e].
  - eexists. split; [reflexivity |]. split.
    + discriminate.
    + intros d'. split; congruence.
  - destruct (response e) as [r |]; [| destruct (request e)];
      (eexists; split; [reflexivity |]; split;
       [ intros v [= <-]; eexists; reflexivity
       | intros d'; split; discriminate ]).
Qed.


Lemma getServiceNowToken_hit w tok :
  cache_hit env w = Some tok ->
  getServiceNowToken env w = (Return tok, w).
Proof. intros H. unfold getServiceNowToken. now rewrite H. Qed.

Lemma getServiceNowToken_miss_granted w tok expiresIn :
  cache_hit env w = None ->
  granted (oauth_post env (trace w)) = Some (tok, expiresIn) ->
  getServiceNowToken env w =
    (Return tok,
     {| cachedToken := Some tok;
        tokenExpiry :=
          Some (Z.of_N (Date_now env (OAuthExchange :: trace w)) + expiresIn * 1000);
        trace := OAuthExchange :: trace w |}).
Proof.
  intros Hmiss Hg. unfold getServiceNowToken. rewrite Hmiss. unfold_monad.
  unfold granted in Hg.
  destruct (oauth_post env (trace w)) as [[[[tok'|] e]|] | err]; try discriminate.
  simpl in Hg. simpl.
  destruct (negb (String.eqb tok' "")); [| discriminate].
  injection Hg as -> <-. reflexivity.
Qed.

Lemma getServiceNowToken_miss_refused w :
  cache_hit env w = None ->
  granted (oauth_post env (trace w)) = None ->
  exists e,
    getServiceNowToken env w = (Throw (JsErr e), emit OAuthExchange w).
Proof.
  intros Hmiss Hg. unfold getServiceNowToken. rewrite Hmiss. unfold_monad.
  unfold granted in Hg.
  destruct (oauth_post env (trace w)) as [[[[tok'|] e]|] | err]; simpl in *.
  - destruct (negb (String.eqb tok' "")); [discriminate |].
    eexists; reflexivity.
  - eexists; reflexivity.
  - eexists; reflexivity.
  - destruct (response err); [| destruct (request err)]; eexists; reflexivity.
Qed.

Lemma getServiceNowToken_raises w v w' :
  getServiceNowToken env w = (Throw v, w') -> is_Error v.
Proof.
  intros H.
  destruct (cache_hit env w) as [tok |] eqn:Hhit.
  - rewrite (getServiceNowToken_hit _ _ Hhit) in H. discriminate.
  - destruct (granted (oauth_post env (trace w))) as [[tok e] |] eqn:Hg.
    + rewrite (getServiceNowToken_miss_granted _ _ _ Hhit Hg) in H. discriminate.
    + destruct (getServiceNowToken_miss_refused _ Hhit Hg) as (e & He).
      rewrite He in H. injection H as <- _. now exists e.
Qed.


Lemma createServiceNowIncident_run token payload w :
  exists r w',
    createServiceNowIncident env token payload w = (r, w')
    /\ trace w' = IncidentPost token payload :: trace w
    /\ (forall v, r = Throw v -> is_Error v)
    /\ (if answered_401 (incident_post env (trace w) token payload)
        then cache_cleared w' /\ exists v, r = Throw v
        else same_cache w w').
Proof.
  unfold createServiceNowIncident, answered_401, is_401. unfold_monad.
  destruct (incident_post env (trace w) token payload) as [[[[i|]]|] | e].
  - do 2 eexists. split; [reflexivity |]. repeat split. discriminate.
  - do 2 eexists. split; [reflexivity |]. repeat split.
    intros v [= <-]. eexists; reflexivity.
  - do 2 eexists. split; [reflexivity |]. repeat split.
    intros v [= <-]. eexists; reflexivity.
  - destruct (response e) as [r |] eqn:Hr.
    + destruct (resp_status r =? 401);
        (do 2 eexists; split; [reflexivity |]; repeat split;
         try (intros v [= <-]); eexists; reflexivity).
    + destruct (request e);
        (do 2 eexists; split; [reflexivity |]; repeat split;
         intros v [= <-]; eexists; reflexivity).
Qed.

Lemma getTransport_run w :
  (exists t, getTransport env w = (Return t, w))
  \/ (exists e, getTransport env w = (Throw (JsErr e), w)).
Proof.
  unfold getTransport. unfold_monad.
  match goal with
  | |- context [createTransport env ?opts] => destruct (createTransport env opts)
  end; [right | left]; eexists; reflexivity.
Qed.

Lemma sendIncidentEmail_run i key projectName w :
  exists w',
    sendIncidentEmail env i key projectName w = (Return tt, w')
    /\ same_cache w w'
    /\ ((w' = w) \/ exists t m, w' = emit (SendMail t m) w).
Proof.
  unfold sendIncidentEmail.
  destruct (negb (smtp_configured env)).
  - exists w. unfold ret. auto with gateway.
  - unfold try_catch at 1. unfold bind at 1.
    destruct (getTransport_run w) as [(t & Ht) | (e & He)].
    + rewrite Ht. unfold sendMail, get_message, bind, ret.
      match goal with
      | |- context [transport_sendMail env ?h ?t ?m] =>
          destruct (transport_sendMail env h t m)
      end;
        (eexists; split; [reflexivity |]; split;
         [apply same_cache_emit | right; do 2 eexists; reflexivity]).
    + rewrite He. unfold get_message, bind, ret.
      exists w. auto with gateway.
Qed.

End CallFacts.

(** ** The calls under their retry policies *)

Lemma only_added_refl P w : only_added P w w.
Proof. exists []. split; reflexivity. Qed.

Lemma only_added_trans P w1 w2 w3 :
  only_added P w1 w2 -> only_added P w2 w3 -> only_added P w1 w3.
Proof.
  intros (e1 & H1 & F1) (e2 & H2 & F2).
  exists (e2 ++ e1)%list. split.
  - unfold added in *. rewrite H2, H1. apply app_assoc.
  - rewrite forallb_app, F1, F2. reflexivity.
Qed.

Lemma only_added_emit (P : Event -> bool) w ev :
  P ev = true -> only_added P w (emit ev w).
Proof.
  intros H. exists [ev]. split; [reflexivity |]. simpl. now rewrite H.
Qed.

Section RetriedCalls.
Variable env : Env.

Lemma opts_retries_nonneg r l : 0 <= r -> 0 <= retries (opts r l).
Proof. intros H. exact H. Qed.

Lemma retried_lookup key o w :
  let run := retryOperation env (getSonarQubeProject env key) o w in
  same_cache w (snd run) /\ only_added is_lookup_or_sleep w (snd run).
Proof.
  apply (retryOperation_preserves env (getSonarQubeProject env key) o
           (fun w w' => same_cache w w' /\ only_added is_lookup_or_sleep w w')).
  - intros w0. split; [apply same_cache_refl | apply only_added_refl].
  - intros w1 w2 w3 [C1 A1] [C2 A2].
    split; [eapply same_cache_trans | eapply only_added_trans]; eassumption.
  - intros w0 ms. split; [apply same_cache_emit | now apply only_added_emit].
  - intros w0. destruct (getSonarQubeProject_run env key w0) as (r & -> & _).
    simpl. split; [apply same_cache_emit | now apply only_added_emit].
Qed.

Lemma retried_lookup_raises key o w v w' :
  0 <= retries o ->
  retryOperation env (getSonarQubeProject env key) o w = (Throw v, w') ->
  is_Error v.
Proof.
  intros Hr H.
  apply (retryOperation_raises _ _ _ _ _ _ Hr) in H; [exact H |].
  intros w0 v0 w1 Hlast.
  destruct (getSonarQubeProject_run env key w0) as (r & Hrun & Hraise & _).
  rewrite Hrun in Hlast. injection Hlast as -> _. now apply Hraise.
Qed.

Lemma retried_incident token payload o w :
  only_added (is_incident_or_sleep token payload) w
    (snd (retryOperation env (createServiceNowIncident env token payload) o w)).
Proof.
  apply (retryOperation_preserves env (createServiceNowIncident env token payload) o
           (only_added (is_incident_or_sleep token payload))).
  - apply only_added_refl.
  - apply only_added_trans.
  - intros w0 ms. now apply only_added_emit.
  - intros w0.
    destruct (createServiceNowIncident_run env token payload w0)
      as (r & w1 & -> & Htr & _).
    exists [IncidentPost token payload]. split; [exact Htr |].
    simpl. now rewrite String.eqb_refl.
Qed.

Lemma retried_incident_raises token payload o w v w' :
  0 <= retries o ->
  retryOperation env (createServiceNowIncident env token payload) o w = (Throw v, w') ->
  is_Error v.
Proof.
  intros Hr H.
  apply (retryOperation_raises _ _ _ _ _ _ Hr) in H; [exact H |].
  intros w0 v0 w2 Hlast.
  destruct (createServiceNowIncident_run env token payload w0)
    as (r & w1 & Hrun & _ & Hraise & _).
  rewrite Hrun in Hlast. injection Hlast as -> _. now apply Hraise.
Qed.

Lemma retried_token_raises o w v w' :
  0 <= retries o ->
  retryOperation env (getServiceNowToken env) o w = (Throw v, w') ->
  is_Error v.
Proof.
  intros Hr H.
  apply (retryOperation_raises _ _ _ _ _ _ Hr) in H; [exact H |].
  intros w0 v0 w1 Hlast.
  now apply getServiceNowToken_raises in Hlast.
Qed.

(** ** One iteration of the batch loop *)

Lemma batch_item_cases token key results w :
  match retryOperation env (getSonarQubeProject env key)
          (opts 2 ("sonarqube-" ++ key)) w with
  | (Throw v, w1) =>
      exists e, v = JsErr e
        /\ batch_item env token key results w =
             (Return (results ++ [error_record key (message e)])%list, w1)
  | (Return d, w1) =>
      match first_component d with
      | None =>
          batch_item env token key results w =
            (Return (results ++ [not_found_record key])%list, w1)
      | Some c =>
          match retryOperation env
                  (createServiceNowIncident env token (batch_payload c key))
                  (opts 3 ("incident-" ++ key)) w1 with
          | (Throw v, w2) =>
              exists e, v = JsErr e
                /\ batch_item env token key results w =
                     (Return (results ++ [error_record key (message e)])%list, w2)
          | (Return i, w2) =>
              exists w3,
                batch_item env token key results w =
                  (Return (results ++ [created_record key i])%list, w3)
                /\ same_cache w2 w3
                /\ (w3 = w2 \/ exists t m, w3 = emit (SendMail t m) w2)
          end
      end
  end.
Proof.
  destruct (retryOperation env (getSonarQubeProject env key)
              (opts 2 ("sonarqube-" ++ key)) w) as [[d | v] w1] eqn:Hlook.
  - destruct (first_component d) as [c |] eqn:Hc.
    + destruct (retryOperation env
                  (createServiceNowIncident env token (batch_payload c key))
                  (opts 3 ("incident-" ++ key)) w1) as [[i | v] w2] eqn:Hinc.
      * destruct (sendIncidentEmail_run env i key (name c) w2)
          as (w3 & Hmail & Hsame & Hw).
        exists w3. unfold batch_item, try_catch, bind.
        rewrite Hlook, Hc, Hinc, Hmail. auto.
      * destruct (retried_incident_raises _ _ _ _ _ _
                    (opts_retries_nonneg 3 _ ltac:(lia)) Hinc) as (e & ->).
        exists e. unfold batch_item, try_catch, bind.
        rewrite Hlook, Hc, Hinc. split; reflexivity.
    + unfold batch_item, try_catch, bind. rewrite Hlook, Hc. reflexivity.
  - destruct (retried_lookup_raises _ _ _ _ _
                (opts_retries_nonneg 2 _ ltac:(lia)) Hlook) as (e & ->).
    exists e. unfold batch_item, try_catch, bind. rewrite Hlook.
    split; reflexivity.
Qed.

Lemma batch_item_run token key results w :
  exists rec w',
    batch_item env token key results w = (Return (results ++ [rec])%list, w')
    /\ projectKey rec = key
    /\ String.eqb (status rec) "error" = item_fails env token key w.
Proof.
  pose proof (batch_item_cases token key results w) as H.
  unfold item_fails.
  destruct (retryOperation env (getSonarQubeProject env key)
              (opts 2 ("sonarqube-" ++ key)) w) as [[d | v] w1].
  - destruct (first_component d) as [c |].
    + destruct (retryOperation env
                  (createServiceNowIncident env token (batch_payload c key))
                  (opts 3 ("incident-" ++ key)) w1) as [[i | v] w2].
      * destruct H as (w3 & -> & _). do 2 eexists. repeat split.
      * destruct H as (e & _ & ->). do 2 eexists. repeat split.
    + rewrite H. do 2 eexists. repeat split.
  - destruct H as (e & _ & ->). do 2 eexists. repeat split.
Qed.

(** The record pushed for a key does not depend on what is already in
    [results]. *)
Lemma batch_item_prepend token key results w :
  batch_item env token key results w =
  prepend results (batch_item env token key [] w).
Proof.
  unfold batch_item, try_catch, bind, prepend.
  destruct (retryOperation env (getSonarQubeProject env key)
              (opts 2 ("sonarqube-" ++ key)) w) as [[d | v] w1].
  - destruct (first_component d) as [c |]; [| reflexivity].
    destruct (retryOperation env
                (createServiceNowIncident env token (batch_payload c key))
                (opts 3 ("incident-" ++ key)) w1) as [[i | v] w2].
    + destruct (sendIncidentEmail env i key (name c) w2) as [[[] | v] w3].
      * reflexivity.
      * destruct v; reflexivity.
    + destruct v; reflexivity.
  - destruct v; reflexivity.
Qed.

(** ** The whole batch loop *)

Lemma prepend_prepend {A} (xs ys : list A) r :
  prepend xs (prepend ys r) = prepend (xs ++ ys) r.
Proof.
  destruct r as [[recs | v] w]; simpl; [| reflexivity].
  now rewrite app_assoc.
Qed.

Lemma batch_loop_prepend token keys :
  forall results w,
    batch_loop env token keys results w =
    prepend results (batch_loop env token keys [] w).
Proof.
  induction keys as [| key rest IH]; intros results w; simpl.
  - unfold ret, prepend. now rewrite app_nil_r.
  - unfold bind.
    rewrite (batch_item_prepend token key results w).
    destruct (batch_item_run token key [] w) as (rec & w1 & Hitem & _).
    rewrite Hitem. simpl.
    rewrite (IH (results ++ [rec])%list w1), (IH [rec] w1).
    now rewrite prepend_prepend.
Qed.

Lemma batch_loop_step token key rest w :
  batch_loop env token (key :: rest) [] w =
  match batch_item env token key [] w with
  | (Return recs, w1) => prepend recs (batch_loop env token rest [] w1)
  | (Throw v, w1) => (Throw v, w1)
  end.
Proof.
  simpl. unfold bind.
  destruct (batch_item env token key [] w) as [[recs | v] w1];
    [apply batch_loop_prepend | reflexivity].
Qed.

Lemma batch_loop_run token keys :
  forall w, exists recs w',
    batch_loop env token keys [] w = (Return recs, w')
    /\ map projectKey recs = keys.
Proof.
  induction keys as [| key rest IH]; intros w.
  - exists [], w. split; reflexivity.
  - destruct (batch_item_run token key [] w) as (rec & w1 & Hitem & Hkey & _).
    destruct (IH w1) as (recs & w' & Hrest & Hmap).
    exists (rec :: recs), w'.
    rewrite batch_loop_step, Hitem, Hrest. split; [reflexivity |].
    simpl. now rewrite Hkey, Hmap.
Qed.

Lemma batch_loop_split token before key after :
  forall w, exists recs1 w1 rec w2 recs2 w3,
    batch_loop env token before [] w = (Return recs1, w1)
    /\ batch_item env token key [] w1 = (Return [rec], w2)
    /\ batch_loop env token after [] w2 = (Return recs2, w3)
    /\ batch_loop env token (before ++ key :: after) [] w =
         (Return (recs1 ++ rec :: recs2)%list, w3)
    /\ List.length recs1 = List.length before
    /\ projectKey rec = key
    /\ String.eqb (status rec) "error" = item_fails env token key w1.
Proof.
  induction before as [| k0 before IH]; intros w.
  - destruct (batch_item_run token key [] w) as (rec & w2 & Hitem & Hkey & Hst).
    destruct (batch_loop_run token after w2) as (recs2 & w3 & Hafter & _).
    exists [], w, rec, w2, recs2, w3.
    simpl app. rewrite batch_loop_step, Hitem, Hafter.
    repeat split; assumption.
  - destruct (batch_item_run token k0 [] w) as (r & wr & Hi & _).
    destruct (IH wr)
      as (recs1 & w1 & rec & w2 & recs2 & w3 & Hb & Hitem & Ha & Hall & Hlen & Hkey & Hst).
    exists (r :: recs1), w1, rec, w2, recs2, w3.
    simpl app. rewrite !batch_loop_step, Hi, Hb, Hall.
    simpl. repeat split; try assumption. now rewrite Hlen.
Qed.

(** ** The two handlers *)

Lemma create_incidents_cases keys w :
  if (Nat.eqb (List.length keys) 0 || Nat.ltb 50 (List.length keys))%bool
  then exists msg,
      create_incidents env (Some keys) w =
        (Return {| code := 400; body := ErrorBody msg None |}, w)
  else
    match retryOperation env (getServiceNowToken env)
            (opts 3 "servicenow-oauth") w with
    | (Throw v, w1) =>
        exists e, v = JsErr e
          /\ create_incidents env (Some keys) w =
               (Return {| code := 500;
                          body := ErrorBody "Batch processing failed"
                                    (Some (message e)) |}, w1)
    | (Return token, w1) =>
        exists recs w',
          batch_loop env token keys [] w1 = (Return recs, w')
          /\ create_incidents env (Some keys) w =
               (Return {| code := 200;
                          body := BatchBody "Batch processed" recs |}, w')
    end.
Proof.
  unfold create_incidents.
  destruct (Nat.eqb (List.length keys) 0); simpl.
  { eexists; reflexivity. }
  destruct (Nat.ltb 50 (List.length keys)).
  { eexists; reflexivity. }
  unfold try_catch, bind.
  destruct (retryOperation env (getServiceNowToken env)
              (opts 3 "servicenow-oauth") w) as [[token | v] w1] eqn:Htok.
  - destruct (batch_loop_run token keys w1) as (recs & w' & Hloop & _).
    exists recs, w'. rewrite Hloop. split; reflexivity.
  - destruct (retried_token_raises _ _ _ _
                (opts_retries_nonneg 3 _ ltac:(lia)) Htok) as (e & ->).
    exists e. split; reflexivity.
Qed.

Lemma sonarqube_webhook_OK req p key w :
  project req = Some p ->
  project_key p = Some key ->
  key <> "" ->
  not_OK (gate_of req) = false ->
  sonarqube_webhook env req w =
    (Return {| code := 200;
               body := MessageBody "Quality Gate OK, no action needed" |}, w).
Proof.
  intros Hp Hk Hne Hok.
  unfold sonarqube_webhook, try_catch. fold (gate_of req). rewrite Hp, Hk.
  rewrite (truthy_str_Some key Hne). simpl negb. rewrite Hok. reflexivity.
Qed.

Lemma sonarqube_webhook_failed req p key w :
  project req = Some p ->
  project_key p = Some key ->
  key <> "" ->
  let st := gate_of req in
  not_OK st = true ->
  match retryOperation env (getServiceNowToken env)
          (opts 3 "servicenow-oauth") w with
  | (Throw v, w1) =>
      exists e, v = JsErr e
        /\ sonarqube_webhook env req w =
             (Return {| code := 500;
                        body := ErrorBody "Webhook processing failed"
                                  (Some (message e)) |}, w1)
  | (Return token, w1) =>
      match retryOperation env
              (createServiceNowIncident env token
                 (webhook_payload (project_name p) key st))
              (opts 3 ("incident-" ++ key)) w1 with
      | (Throw v, w2) =>
          exists e, v = JsErr e
            /\ sonarqube_webhook env req w =
                 (Return {| code := 500;
                            body := ErrorBody "Webhook processing failed"
                                      (Some (message e)) |}, w2)
      | (Return i, w2) =>
          exists w3,
            sonarqube_webhook env req w =
              (Return {| code := 200;
                         body := IncidentBody "Incident created from webhook"
                                   {| number := number i; sys_id := sys_id i |} |},
               w3)
      end
  end.
Proof.
  intros Hp Hk Hne st Hst.
  assert (Hunfold :
    sonarqube_webhook env req w =
    try_catch
      (token <- retryOperation env (getServiceNowToken env)
                  (opts 3 "servicenow-oauth") ;;
       i <- retryOperation env
              (createServiceNowIncident env token
                 (webhook_payload (project_name p) key st))
              (opts 3 ("incident-" ++ key)) ;;
       sendIncidentEmail env i key (project_name p) ;;;
       ret {| code := 200;
              body := IncidentBody "Incident created from webhook"
                        {| number := number i; sys_id := sys_id i |} |})
      (fun error =>
         msg <- get_message error ;;
         ret {| code := 500;
                body := ErrorBody "Webhook processing failed" (Some msg) |})
      w).
  { unfold sonarqube_webhook. fold (gate_of req). fold st. rewrite Hp, Hk.
    rewrite (truthy_str_Some key Hne). simpl negb.
    rewrite Hst. reflexivity. }
  rewrite Hunfold. unfold try_catch, bind.
  destruct (retryOperation env (getServiceNowToken env)
              (opts 3 "servicenow-oauth") w) as [[token | v] w1] eqn:Htok.
  - destruct (retryOperation env
                (createServiceNowIncident env token
                   (webhook_payload (project_name p) key st))
                (opts 3 ("incident-" ++ key)) w1) as [[i | v] w2] eqn:Hinc.
    + destruct (sendIncidentEmail_run env i key (project_name p) w2)
        as (w3 & Hmail & _).
      exists w3. rewrite Hmail. reflexivity.
    + destruct (retried_incident_raises _ _ _ _ _ _
                  (opts_retries_nonneg 3 _ ltac:(lia)) Hinc) as (e & ->).
      exists e. split; reflexivity.
  - destruct (retried_token_raises _ _ _ _
                (opts_retries_nonneg 3 _ ltac:(lia)) Htok) as (e & ->).
    exists e. split; reflexivity.
Qed.

End RetriedCalls.

(** ** The token cache *)

Section CacheFacts.
Variable env : Env.

Lemma cache_hit_valid w tok expiry :
  cachedToken w = Some tok ->
  tok <> "" ->
  tokenExpiry w = Some expiry ->
  Z.of_N (Date_now env (trace w)) < expiry - 300000 ->
  cache_hit env w = Some tok.
Proof.
  intros Htok Hne Hexp Hnow. unfold cache_hit. rewrite Htok, Hexp.
  rewrite (truthy_str_Some tok Hne). simpl.
  destruct (Z.eqb_spec expiry 0) as [-> | _]; [lia |].
  destruct (Z.ltb_spec (Z.of_N (Date_now env (trace w))) (expiry - 300000));
    [reflexivity | lia].
Qed.

Lemma cache_hit_cached w tok :
  cache_hit env w = Some tok -> cachedToken w = Some tok.
Proof.
  unfold cache_hit.
  destruct (cachedToken w) as [t |]; [| discriminate].
  destruct (tokenExpiry w) as [e |]; [| discriminate].
  match goal with |- context [if ?c then _ else _] => destruct c end;
    [congruence | discriminate].
Qed.

Lemma cache_miss_cleared w :
  cachedToken w = None -> cache_hit env w = None.
Proof. intros H. unfold cache_hit. now rewrite H. Qed.

(** Every way [getServiceNowToken] can end. *)
Lemma getServiceNowToken_cases w :
  match getServiceNowToken env w with
  | (Return tok, w') =>
      (cache_hit env w = Some tok /\ w' = w)
      \/ (cache_hit env w = None
          /\ trace w' = OAuthExchange :: trace w
          /\ exists expiresIn,
               granted (oauth_post env (trace w)) = Some (tok, expiresIn)
               /\ cachedToken w' = Some tok
               /\ tokenExpiry w' =
                    Some (Z.of_N (Date_now env (trace w')) + expiresIn * 1000))
  | (Throw v, w') =>
      is_Error v
      /\ cache_hit env w = None
      /\ granted (oauth_post env (trace w)) = None
      /\ trace w' = OAuthExchange :: trace w
      /\ same_cache w w'
  end.
Proof.
  destruct (cache_hit env w) as [tok |] eqn:Hhit.
  - rewrite (getServiceNowToken_hit _ _ _ Hhit). left. auto.
  - destruct (granted (oauth_post env (trace w))) as [[tok e] |] eqn:Hg.
    + rewrite (getServiceNowToken_miss_granted _ _ _ _ Hhit Hg).
      right. repeat split. exists e. repeat split.
    + destruct (getServiceNowToken_miss_refused _ _ Hhit Hg) as (e & ->).
      repeat split. now exists e.
Qed.

Lemma createServiceNowIncident_cache token payload w :
  let w' := snd (createServiceNowIncident env token payload w) in
  if answered_401 (incident_post env (trace w) token payload)
  then cache_cleared w'
  else same_cache w w'.
Proof.
  destruct (createServiceNowIncident_run env token payload w)
    as (r & w' & -> & _ & _ & H). simpl.
  destruct (answered_401 (incident_post env (trace w) token payload)); tauto.
Qed.

End CacheFacts.

Lemma forallb_impl {A} (P Q : A -> bool) (l : list A) :
  (forall x, P x = true -> Q x = true) ->
  forallb P l = true -> forallb Q l = true.
Proof.
  intros HPQ. induction l as [| x l IH]; simpl; [reflexivity |].
  intros H. apply andb_true_iff in H as [Hx Hl].
  now rewrite (HPQ x Hx), (IH Hl).
Qed.

(** ** What does not read the cache *)

Lemma cache_blind_ret {A} (a : A) : cache_blind (ret a).
Proof. intros w w' H. split; [reflexivity | exact H]. Qed.

Lemma cache_blind_throw {A} v : cache_blind (@throw A v).
Proof. intros w w' H. split; [reflexivity | exact H]. Qed.

Lemma cache_blind_bind {A B} (m : M A) (k : A -> M B) :
  cache_blind m -> (forall a, cache_blind (k a)) -> cache_blind (bind m k).
Proof.
  intros Hm Hk w w' H. unfold bind.
  destruct (Hm w w' H) as [Hr Ht].
  destruct (m w) as [[a | v] w1], (m w') as [[a' | v'] w1'];
    simpl in Hr, Ht; try discriminate.
  - injection Hr as <-. now apply Hk.
  - injection Hr as <-. now split.
Qed.

Lemma cache_blind_try_catch {A} (m : M A) (h : JsValue -> M A) :
  cache_blind m -> (forall v, cache_blind (h v)) -> cache_blind (try_catch m h).
Proof.
  intros Hm Hh w w' H. unfold try_catch.
  destruct (Hm w w' H) as [Hr Ht].
  destruct (m w) as [[a | v] w1], (m w') as [[a' | v'] w1'];
    simpl in Hr, Ht; try discriminate.
  - injection Hr as <-. now split.
  - injection Hr as <-. now apply Hh.
Qed.

Lemma cache_blind_get_message v : cache_blind (get_message v).
Proof. destruct v; [apply cache_blind_throw | apply cache_blind_ret]. Qed.

Section Blind.
Variable env : Env.

Lemma retry_exec_det {A} (fn : M A) o attempt lastError w new r wf :
  retry_exec env fn o attempt lastError w new r wf ->
  forall new' r' wf',
    retry_exec env fn o attempt lastError w new' r' wf' ->
    new' = new /\ r' = r /\ wf' = wf.
Proof.
  induction 1; intros new' r' wf' H'; inversion H'; subst;
    try lia; try congruence; auto.
  - split; [| split]; congruence.
  - split; [| split]; congruence.
  - split; [| split]; congruence.
  - match goal with
    | H1 : fn w = (Throw (JsErr e), w1), H2 : fn w = (Throw (JsErr ?x), ?y) |- _ =>
        rewrite H1 in H2; injection H2 as <- <-
    end.
    match goal with
    | Hrec : retry_exec _ _ _ (attempt + 1) _ _ _ _ _ |- _ =>
        destruct (IHretry_exec _ _ _ Hrec) as (-> & -> & ->)
    end.
    auto.
Qed.

Lemma exec_blind {A} (fn : M A) o :
  cache_blind fn ->
  forall attempt lastError w new r wf,
    retry_exec env fn o attempt lastError w new r wf ->
    forall w', trace w = trace w' ->
      exists wf', retry_exec env fn o attempt lastError w' new r wf'
                  /\ trace wf = trace wf'.
Proof.
  intros Hfn. induction 1; intros w0 Htr.
  - exists w0. split; [now apply exec_exit | exact Htr].
  - destruct (Hfn w w0 Htr) as [Hr Ht]. rewrite H0 in Hr, Ht.
    destruct (fn w0) as [r0 w0'] eqn:Hfn0. simpl in Hr, Ht. subst r0.
    exists w0'. split; [now apply exec_return | exact Ht].
  - destruct (Hfn w w0 Htr) as [Hr Ht]. rewrite H0 in Hr, Ht.
    destruct (fn w0) as [r0 w0'] eqn:Hfn0. simpl in Hr, Ht. subst r0.
    exists w0'. split; [now apply exec_exhausted | exact Ht].
  - destruct (Hfn w w0 Htr) as [Hr Ht]. rewrite H0 in Hr, Ht.
    destruct (fn w0) as [r0 w0'] eqn:Hfn0. simpl in Hr, Ht. subst r0.
    exists w0'. split; [now apply exec_unreadable | exact Ht].
  - destruct (Hfn w w0 Htr) as [Hr Ht]. rewrite H0 in Hr, Ht.
    destruct (fn w0) as [r0 w0'] eqn:Hfn0. simpl in Hr, Ht. subst r0.
    destruct (IHretry_exec
                (emit (Sleep (backoff_delay env o attempt (trace w0'))) w0'))
      as (wf' & Hexec & Htf).
    { simpl. now rewrite Ht. }
    exists wf'. split; [| exact Htf].
    rewrite Ht. now apply exec_again.
Qed.

Lemma cache_blind_retryOperation {A} (fn : M A) o :
  cache_blind fn -> cache_blind (retryOperation env fn o).
Proof.
  intros Hfn w w' Htr.
  pose proof (retry_run_exec env fn o w) as Hw.
  pose proof (retry_run_exec env fn o w') as Hw'.
  destruct (exec_blind fn o Hfn _ _ _ _ _ _ Hw w' Htr) as (wf' & Hexec & Htf).
  destruct (retry_exec_det fn o _ _ _ _ _ _ Hexec _ _ _ Hw') as (_ & Hr & Hwf).
  split; [now rewrite Hr | now rewrite Hwf].
Qed.

Lemma cache_blind_lookup key : cache_blind (getSonarQubeProject env key).
Proof.
  intros w w' Htr.
  destruct (getSonarQubeProject_run env key w) as (r & Hrun & _ & Hret).
  destruct (getSonarQubeProject_run env key w') as (r' & Hrun' & _ & Hret').
  rewrite Hrun, Hrun'. simpl. split; [| now rewrite Htr].
  unfold getSonarQubeProject, try_catch, axios, catching in Hrun, Hrun'.
  rewrite <- Htr in Hrun'.
  destruct (sonar_get env (trace w) key) as [d | e].
  - congruence.
  - destruct (response e); [| destruct (request e)]; unfold throw in *; congruence.
Qed.

Lemma cache_blind_incident token payload :
  cache_blind (createServiceNowIncident env token payload).
Proof.
  intros w w' Htr.
  unfold createServiceNowIncident. unfold_monad. rewrite <- Htr.
  destruct (incident_post env (trace w) token payload) as [[[[i |]] |] | e];
    simpl; try (split; [reflexivity | now rewrite Htr]).
  destruct (is_401 e), (response e) as [r |]; [| | | destruct (request e) ..];
    simpl; try destruct (request e); simpl;
    (split; [reflexivity | now rewrite Htr]).
Qed.

Lemma cache_blind_mail i key projectName :
  cache_blind (sendIncidentEmail env i key projectName).
Proof.
  intros w w' Htr. unfold sendIncidentEmail.
  destruct (negb (smtp_configured env)); [now apply cache_blind_ret |].
  unfold try_catch, bind.
  destruct (getTransport_run env w) as [(t & Ht) | (e & He)].
  - assert (Ht' : getTransport env w' = (Return t, w')).
    { revert Ht. unfold getTransport, ret, throw.
      match goal with
      | |- context [createTransport env ?opts] => destruct (createTransport env opts)
      end; congruence. }
    rewrite Ht, Ht'. unfold sendMail, get_message, bind, ret. rewrite <- Htr.
    match goal with
    | |- context [transport_sendMail env ?h ?t ?m] =>
        destruct (transport_sendMail env h t m)
    end; simpl; (split; [reflexivity | now rewrite Htr]).
  - assert (He' : getTransport env w' = (Throw (JsErr e), w')).
    { revert He. unfold getTransport, ret, throw.
      match goal with
      | |- context [createTransport env ?opts] => destruct (createTransport env opts)
      end; congruence. }
    rewrite He, He'. simpl. split; [reflexivity | exact Htr].
Qed.

Lemma cache_blind_item token key results :
  cache_blind (batch_item env token key results).
Proof.
  unfold batch_item.
  apply cache_blind_try_catch.
  - apply cache_blind_bind.
    + apply cache_blind_retryOperation, cache_blind_lookup.
    + intros d. destruct (first_component d) as [c |]; [| apply cache_blind_ret].
      apply cache_blind_bind.
      * apply cache_blind_retryOperation, cache_blind_incident.
      * intros i. apply cache_blind_bind; [apply cache_blind_mail |].
        intros _. apply cache_blind_ret.
  - intros v. apply cache_blind_bind; [apply cache_blind_get_message |].
    intros msg. apply cache_blind_ret.
Qed.

Lemma cache_blind_loop token keys :
  forall results, cache_blind (batch_loop env token keys results).
Proof.
  induction keys as [| key rest IH]; intros results; simpl.
  - apply cache_blind_ret.
  - apply cache_blind_bind; [apply cache_blind_item | exact (IH)].
Qed.

End Blind.

(** * The claims *)

(** ** Retry wrapper *)

(** A negative retry count is outside every policy the gateway uses: the
    loop test fails at once, [fn] is not called, and the initial value of
    [lastError] is raised. *)
Lemma retryOperation_negative_retries {A} env (fn : M A) o w :
  retries o < 0 ->
  retryOperation env fn o w = (Throw JsUndefined, w)
  /\ retry_steps env fn o w = [].
Proof.
  intros Hneg.
  pose proof (retry_run_exec env fn o w) as Hexec.
  apply exec_skipped in Hexec; [| lia].
  destruct Hexec as (Hsteps & Hr & Hw).
  split; [| exact Hsteps].
  destruct (retryOperation env fn o w) as [r w']. simpl in *. congruence.
Qed.

(** An operation that rejects with [undefined] before the last attempt is
    not retried: reading [err.message] for the log line raises a [TypeError],
    and that is what the caller gets after a single call. *)
Lemma retryOperation_undefined_rejection {A} env (fn : M A) o w w1 :
  0 < retries o ->
  fn w = (Throw JsUndefined, w1) ->
  retryOperation env fn o w = (Throw (JsErr message_TypeError), w1)
  /\ retry_steps env fn o w = [Invoked 0 (Some JsUndefined)].
Proof.
  intros Hr Hfn.
  assert (Hone : retry_exec env fn o 0 JsUndefined w [Invoked 0 (Some JsUndefined)]
                   (Throw (JsErr message_TypeError)) w1)
    by (apply exec_unreadable; [exact Hr | exact Hfn]).
  destruct (retry_exec_det env fn o _ _ _ _ _ _ Hone _ _ _ (retry_run_exec env fn o w))
    as (Hs & Hr' & Hw).
  split; [| exact Hs].
  destruct (retryOperation env fn o w). simpl in *. congruence.
Qed.

(** C2, as stated, fails.  Under a policy with [retries: -1] the operation
    is not called at all, and [undefined] is raised.  And an operation that
    rejects with [undefined] is called once under [retries: 3], and the
    caller gets a [TypeError], not what the call raised. *)
Lemma retryOperation_bound_fails :
  let env := Scenario.env true in
  let w := Scenario.fresh_world in
  ~ (1 <= invocations (retry_steps env Scenario.failing (opts (-1) "op") w))%nat
  /\ retryOperation env Scenario.failing (opts (-1) "op") w = (Throw JsUndefined, w)
  /\ retry_steps env Cases.rejecting_undefined (opts 3 "op") w
     = [Invoked 0 (Some JsUndefined)]
  /\ retryOperation env Cases.rejecting_undefined (opts 3 "op") w
     = (Throw (JsErr message_TypeError), w).
Proof.
  vm_compute. repeat split; try reflexivity.
  intros H. inversion H.
Qed.

(** C2, amended: for every operation and every policy with a retry count of
    zero or more, [retryOperation] calls the operation at least once and at
    most [retries + 1] times, and the recorded calls and sleeps are what
    happened to the world.  When it raises and every call that failed before
    the last attempt raised an [Error] object, all [retries + 1] calls were
    made and the value raised is exactly the one the last call (attempt
    number [retries]) raised, not a wrapper around it; when it returns, the
    last call returned that value. *)
Theorem retryOperation_bound {A} env (fn : M A) o w :
  0 <= retries o ->
  let steps := retry_steps env fn o w in
  replays fn steps w (snd (retryOperation env fn o w))
  /\ (1 <= invocations steps)%nat
  /\ Z.of_nat (invocations steps) <= retries o + 1
  /\ match retryOperation env fn o w with
     | (Throw v, w') =>
         (forall k v0,
            In (Invoked k (Some v0)) steps -> k < retries o -> is_Error v0) ->
         Z.of_nat (invocations steps) = retries o + 1
         /\ (exists earlier, steps = earlier ++ [Invoked (retries o) (Some v)])%list
         /\ (exists w_last, fn w_last = (Throw v, w'))
     | (Return a, w') =>
         (exists earlier k, steps = earlier ++ [Invoked k None])%list
         /\ (exists w_last, fn w_last = (Return a, w'))
     end.
Proof.
  intros Hr steps.
  pose proof (retry_run_exec env fn o w) as Hexec. fold steps in Hexec.
  destruct (exec_invocations _ _ _ _ _ _ _ _ _ Hexec ltac:(lia)) as [Hmin Hmax].
  split; [exact (exec_replays _ _ _ _ _ _ _ _ _ Hexec) |].
  split; [exact Hmin |]. split; [lia |].
  destruct (retryOperation env fn o w) as [[a | v] w']; simpl in Hexec.
  - apply (exec_return_last _ _ _ _ _ _ _ _ _ Hexec a eq_refl).
  - intros Herr.
    destruct (exec_throw _ _ _ _ _ _ _ _ _ Hexec ltac:(lia) Herr v eq_refl)
      as (Hn & Hlast & Hfn).
    repeat split; [lia | exact Hlast | exact Hfn].
Qed.

(** An operation that always fails with the same [Error], under the policy
    [retries: 3]: four calls, and that error comes out. *)
Lemma retryOperation_bound_witness :
  let steps := retry_steps (Scenario.env true) Scenario.failing (opts 3 "op")
                 Scenario.fresh_world in
  0 <= retries (opts 3 "op")
  /\ fst (retryOperation (Scenario.env true) Scenario.failing (opts 3 "op")
            Scenario.fresh_world) = Throw (JsErr Scenario.unreachable)
  /\ Z.of_nat (invocations steps) = 3 + 1
  /\ (exists earlier,
        steps = earlier ++ [Invoked 3 (Some (JsErr Scenario.unreachable))])%list.
Proof.
  cbv zeta. split; [discriminate |]. split; [vm_compute; reflexivity |].
  destruct (retryOperation_bound (Scenario.env true) Scenario.failing (opts 3 "op")
              Scenario.fresh_world ltac:(discriminate)) as (_ & _ & _ & H).
  assert (E : retryOperation (Scenario.env true) Scenario.failing (opts 3 "op")
                Scenario.fresh_world
              = (Throw (JsErr Scenario.unreachable),
                 {| cachedToken := None; tokenExpiry := None;
                    trace := [Sleep 2050; Sleep 1050; Sleep 550] |}))
    by (vm_compute; reflexivity).
  rewrite E in H.
  destruct H as (Hn & Hlast & _).
  - intros k v0 Hin _. vm_compute in Hin.
    repeat match type of Hin with _ \/ _ => destruct Hin as [Hin | Hin] end;
      try contradiction; try congruence;
      inversion Hin; exists Scenario.unreachable; reflexivity.
  - split; [exact Hn | exact Hlast].
Defined.




(** ** Token cache *)

(** Only non-empty tokens are ever stored. *)
Lemma granted_token_truthy a tok expiresIn :
  granted a = Some (tok, expiresIn) -> tok <> "".
Proof.
  unfold granted.
  destruct a as [[[[t |] e] |] | err]; try discriminate.
  simpl. destruct (String.eqb_spec t ""); simpl; [discriminate |].
  intros [= <- _]. assumption.
Qed.

(** C4: whenever a (non-empty) token is cached and the clock reads less than
    the stored expiry minus 300000 ms, [getServiceNowToken] returns the
    cached token and leaves the world as it was: no OAuth exchange is sent
    and the cache is not touched. *)
Theorem cached_token_reused env w tok expiry :
  cachedToken w = Some tok ->
  tok <> "" ->
  tokenExpiry w = Some expiry ->
  Z.of_N (Date_now env (trace w)) < expiry - 300000 ->
  getServiceNowToken env w = (Return tok, w).
Proof.
  intros Htok Hne Hexp Hnow.
  apply getServiceNowToken_hit.
  now apply cache_hit_valid with (expiry := expiry).
Qed.

(** A token cached an hour ahead of its expiry is served from the cache. *)
Lemma cached_token_reused_witness :
  Z.of_N (Date_now (Scenario.env true) (trace Scenario.stale_world))
    < 1700003600000 - 300000
  /\ getServiceNowToken (Scenario.env true) Scenario.stale_world =
       (Return "stale", Scenario.stale_world).
Proof.
  split; [reflexivity |].
  apply (cached_token_reused (Scenario.env true) Scenario.stale_world
           "stale" 1700003600000).
  - reflexivity.
  - discriminate.
  - reflexivity.
  - reflexivity.
Defined.

(** C5: a 401 answer to the incident POST clears both cache variables, and
    in any world whose cache is cleared the next [getServiceNowToken] sends
    the OAuth exchange, whatever expiry was stored before; when the exchange
    grants a token, that token is returned and cached. *)
Theorem invalidation_forces_refresh env token payload w :
  answered_401 (incident_post env (trace w) token payload) = true ->
  cache_cleared (snd (createServiceNowIncident env token payload w))
  /\ forall w2,
      cache_cleared w2 ->
      trace (snd (getServiceNowToken env w2)) = OAuthExchange :: trace w2
      /\ forall tok expiresIn,
          granted (oauth_post env (trace w2)) = Some (tok, expiresIn) ->
          fst (getServiceNowToken env w2) = Return tok
          /\ cachedToken (snd (getServiceNowToken env w2)) = Some tok.
Proof.
  intros H401. split.
  - pose proof (createServiceNowIncident_cache env token payload w) as Hc.
    simpl in Hc. now rewrite H401 in Hc.
  - intros w2 [Hnone _].
    pose proof (cache_miss_cleared env w2 Hnone) as Hmiss.
    pose proof (getServiceNowToken_cases env w2) as Hcases.
    destruct (getServiceNowToken env w2) as [[tok' | v] w3]; simpl.
    + destruct Hcases as [[Hhit _] | (_ & Htr & e & Hg & Hct & _)]; [congruence |].
      split; [exact Htr |].
      intros tok expiresIn Hg'. rewrite Hg in Hg'. injection Hg' as -> _.
      now split.
    + destruct Hcases as (_ & _ & Hg & Htr & _).
      split; [exact Htr |].
      intros tok expiresIn Hg'. congruence.
Qed.

(** A 401 clears a cache that was still valid. *)
Lemma invalidation_forces_refresh_witness :
  answered_401 (incident_post (Scenario.env true) (trace Scenario.stale_world)
                  "stale" Scenario.failed_gate_payload) = true
  /\ cache_hit (Scenario.env true) Scenario.stale_world = Some "stale"
  /\ cache_cleared
       (snd (createServiceNowIncident (Scenario.env true) "stale"
               Scenario.failed_gate_payload Scenario.stale_world)).
Proof.
  split; [reflexivity |]. split; [reflexivity |].
  apply (invalidation_forces_refresh (Scenario.env true) "stale"
           Scenario.failed_gate_payload Scenario.stale_world).
  reflexivity.
Defined.




(** ** Notification *)

(** C7: [sendIncidentEmail] always returns normally, whatever the transport
    does; with the mail channel unconfigured it does nothing at all; and in
    the batch loop, once the lookup found a component and the ticket was
    created, the record pushed is the ["incident_created"] one, whether or
    not the mail could be sent. *)
Theorem notification_never_raises env :
  (forall i key projectName w,
     fst (sendIncidentEmail env i key projectName w) = Return tt)
  /\ (smtp_configured env = false ->
      forall i key projectName w,
        sendIncidentEmail env i key projectName w = (Return tt, w))
  /\ (forall token key results w d w1 c i w2,
        retryOperation env (getSonarQubeProject env key)
          (opts 2 ("sonarqube-" ++ key)) w = (Return d, w1) ->
        first_component d = Some c ->
        retryOperation env (createServiceNowIncident env token (batch_payload c key))
          (opts 3 ("incident-" ++ key)) w1 = (Return i, w2) ->
        exists w3,
          batch_item env token key results w =
            (Return (results ++ [created_record key i])%list, w3)
          /\ status (created_record key i) = "incident_created").
Proof.
  split; [| split].
  - intros i key projectName w.
    destruct (sendIncidentEmail_run env i key projectName w) as (w' & -> & _).
    reflexivity.
  - intros Hoff i key projectName w.
    unfold sendIncidentEmail. rewrite Hoff. reflexivity.
  - intros token key results w d w1 c i w2 Hlook Hc Hinc.
    pose proof (batch_item_cases env token key results w) as H.
    rewrite Hlook, Hc, Hinc in H.
    destruct H as (w3 & H & _). exists w3. split; [exact H | reflexivity].
Qed.

(** Every send fails, and the record is still the created one. *)
Lemma notification_never_raises_witness :
  transport_sendMail (Scenario.env true) [] 
    {| host := Some "smtp.example"; port := Some 587; secure := false; auth := None |}
    {| mail_from := None; mail_to := None; subject := ""; text := "" |}
    = Some (new_Error "SMTP connection refused")
  /\ exists w3,
       batch_item (Scenario.env true) "fresh" "project1" [] Scenario.fresh_world =
         (Return [created_record "project1" Scenario.ticket], w3)
       /\ status (created_record "project1" Scenario.ticket) = "incident_created".
Proof.
  split; [reflexivity |].
  destruct (notification_never_raises (Scenario.env true)) as (_ & _ & Hitem).
  apply (Hitem "fresh" "project1" [] Scenario.fresh_world
           (Some {| components := Some [Some {| name := Some "project1" |}] |})
           (emit (SonarSearch "project1") Scenario.fresh_world)
           {| name := Some "project1" |}
           Scenario.ticket
           (emit (IncidentPost "fresh"
                    (batch_payload {| name := Some "project1" |} "project1"))
              (emit (SonarSearch "project1") Scenario.fresh_world))).
  - vm_compute. reflexivity.
  - reflexivity.
  - vm_compute. reflexivity.
Defined.

(** ** Batch endpoint *)



(** C3, as stated, fails: a list of 51 keys is answered with a 400 that
    carries no record at all, and so is any list, with a 500, when the token
    cannot be acquired before the loop. *)
Lemma batch_response_without_records :
  create_incidents (Scenario.env true) (Some (repeat "a" 51)) Scenario.fresh_world
  = (Return {| code := 400;
               body := ErrorBody "projectKeys array too large (max 50)" None |},
     Scenario.fresh_world)
  /\ fst (create_incidents (Scenario.env false) (Some ["a"]) Scenario.fresh_world)
     = Return {| code := 500;
                 body := ErrorBody "Batch processing failed"
                           (Some "ServiceNow OAuth unreachable: connect ECONNREFUSED") |}.
Proof. vm_compute. split; reflexivity. Qed.

(** C3, amended: for every list of 1 to 50 project keys for which the token
    is acquired before the loop, the response is the 200 ["Batch processed"]
    whose results are the records of the batch loop, run with that token
    from the world the acquisition left: exactly one per key, in the order
    of the keys.  In any run of the loop, from any world and so from that
    one, around any key the records of the keys before it
    are those of the loop run on them alone, its own record is the one its
    iteration pushes (with status ["error"] exactly when its lookup or its
    ticket creation ends in a raise), and the records of the keys after it
    are those of the loop run on them from the world that iteration left;
    the records depend on that world through its history only, not through
    the token cache, the one piece of process state an iteration can change.
    An empty list or one of more than 50 keys is answered with a 400, and a
    failed token acquisition with a 500, both without records and before any
    key is processed. *)
Theorem batch_outcomes_in_order env w :
  (forall token keys w0,
     exists recs w',
       batch_loop env token keys [] w0 = (Return recs, w')
       /\ map projectKey recs = keys)
  /\ (forall token before key after w0,
        exists recs1 w1 rec w2 recs2 w3,
          batch_loop env token before [] w0 = (Return recs1, w1)
          /\ batch_item env token key [] w1 = (Return [rec], w2)
          /\ batch_loop env token after [] w2 = (Return recs2, w3)
          /\ batch_loop env token (before ++ key :: after) [] w0 =
               (Return (recs1 ++ rec :: recs2)%list, w3)
          /\ List.length recs1 = List.length before
          /\ projectKey rec = key
          /\ String.eqb (status rec) "error" = item_fails env token key w1)
  /\ (forall token keys w0 w0',
        trace w0' = trace w0 ->
        fst (batch_loop env token keys [] w0') = fst (batch_loop env token keys [] w0))
  /\ (forall keys,
        if (Nat.eqb (List.length keys) 0 || Nat.ltb 50 (List.length keys))%bool
        then exists msg,
            create_incidents env (Some keys) w =
              (Return {| code := 400; body := ErrorBody msg None |}, w)
        else
          match retryOperation env (getServiceNowToken env)
                  (opts 3 "servicenow-oauth") w with
          | (Throw v, w1) =>
              exists e, v = JsErr e
                /\ create_incidents env (Some keys) w =
                     (Return {| code := 500;
                                body := ErrorBody "Batch processing failed"
                                          (Some (message e)) |}, w1)
          | (Return token, w1) =>
              exists recs w',
                batch_loop env token keys [] w1 = (Return recs, w')
                /\ map projectKey recs = keys
                /\ create_incidents env (Some keys) w =
                     (Return {| code := 200;
                                body := BatchBody "Batch processed" recs |}, w')
          end).
Proof.
  split; [| split; [| split]].
  - intros token keys w0. apply batch_loop_run.
  - intros token before key after w0. apply batch_loop_split.
  - intros token keys w0 w0' Htr.
    apply (cache_blind_loop env token keys [] w0' w0 Htr).
  - intros keys.
    pose proof (create_incidents_cases env keys w) as H.
    destruct (Nat.eqb (List.length keys) 0 || Nat.ltb 50 (List.length keys))%bool;
      [exact H |].
    destruct (retryOperation env (getServiceNowToken env)
                (opts 3 "servicenow-oauth") w) as [[token | v] w1]; [| exact H].
    destruct H as (recs & w' & Hloop & Hrun).
    exists recs, w'. split; [exact Hloop |]. split; [| exact Hrun].
    destruct (batch_loop_run env token keys w1) as (recs' & w'' & Hloop' & Hmap).
    congruence.
Qed.

(** Three keys, the second failing, with every service but the quality
    service's answer for ["down"] up: the response carries the three records
    in order. *)
Lemma batch_outcomes_in_order_witness :
  fst (create_incidents (Scenario.env true) (Some ["a"; "down"; "empty"])
         Scenario.fresh_world)
  = Return {| code := 200;
              body := BatchBody "Batch processed"
                        [created_record "a" Scenario.ticket;
                         error_record "down"
                           "SonarQube API unreachable: connect ECONNREFUSED";
                         not_found_record "empty"] |}.
Proof.
  destruct (batch_outcomes_in_order (Scenario.env true) Scenario.fresh_world)
    as (_ & _ & _ & Hresp).
  specialize (Hresp ["a"; "down"; "empty"]). cbn [List.length Nat.eqb Nat.ltb orb] in Hresp.
  assert (E : retryOperation (Scenario.env true) (getServiceNowToken (Scenario.env true))
                (opts 3 "servicenow-oauth") Scenario.fresh_world
              = (Return "fresh",
                 snd (getServiceNowToken (Scenario.env true) Scenario.fresh_world)))
    by (vm_compute; reflexivity).
  change (Nat.leb 51 3) with false in Hresp. cbv iota in Hresp.
  rewrite E in Hresp.
  destruct Hresp as (recs & w' & Hloop & _ & ->). simpl fst.
  assert (Hrecs : fst (batch_loop (Scenario.env true) "fresh" ["a"; "down"; "empty"] []
                         (snd (getServiceNowToken (Scenario.env true)
                                 Scenario.fresh_world)))
                  = Return [created_record "a" Scenario.ticket;
                            error_record "down"
                              "SonarQube API unreachable: connect ECONNREFUSED";
                            not_found_record "empty"])
    by (vm_compute; reflexivity).
  rewrite Hloop in Hrecs. simpl in Hrecs. injection Hrecs as ->. reflexivity.
Defined.

(** ** Webhook endpoint *)

(** C9, as stated, fails: with the token endpoint unreachable, a webhook whose
    gate status is ["ERROR"] is answered with a 500 and no ticket is created
    (no incident POST is even sent), although the status differs from
    ["OK"]. *)
Lemma webhook_ticket_iff_fails :
  let run := sonarqube_webhook (Scenario.env false) Scenario.failed_gate
               Scenario.fresh_world in
  ~ (created_ticket (fst run) = true <->
     not_OK (gate_of Scenario.failed_gate) = true)
  /\ fst run =
       Return {| code := 500;
                 body := ErrorBody "Webhook processing failed"
                           (Some "ServiceNow OAuth unreachable: connect ECONNREFUSED") |}
  /\ forallb (fun ev => match ev with IncidentPost _ _ => false | _ => true end)
       (trace (snd run)) = true.
Proof.
  vm_compute. split; [| split; reflexivity].
  intros [_ H]. specialize (H eq_refl). discriminate.
Qed.

(** C9, amended: for every webhook request carrying a project key, a ticket
    is created only if the gate status differs from ["OK"] (an absent status
    differs).  When it equals ["OK"] the answer is the no-action one and the
    world is untouched: nothing is sent.  When it differs, the token is
    acquired and the ticket creation is run, each under its retry policy; a
    ticket is created exactly when both return, and otherwise the answer is
    the 500 failure. *)
Theorem webhook_quality_gate env req p key w :
  project req = Some p ->
  project_key p = Some key ->
  key <> "" ->
  let st := gate_of req in
  let run := sonarqube_webhook env req w in
  (created_ticket (fst run) = true -> not_OK st = true)
  /\ (not_OK st = false ->
      run = (Return {| code := 200;
                       body := MessageBody "Quality Gate OK, no action needed" |}, w))
  /\ (not_OK st = true ->
      created_ticket (fst run) =
        match retryOperation env (getServiceNowToken env)
                (opts 3 "servicenow-oauth") w with
        | (Return token, w1) =>
            match retryOperation env
                    (createServiceNowIncident env token
                       (webhook_payload (project_name p) key st))
                    (opts 3 ("incident-" ++ key)) w1 with
            | (Return _, _) => true
            | (Throw _, _) => false
            end
        | (Throw _, _) => false
        end
      /\ (created_ticket (fst run) = false ->
          exists msg,
            fst run = Return {| code := 500;
                                body := ErrorBody "Webhook processing failed"
                                          (Some msg) |})).
Proof.
  intros Hp Hk Hne. cbv zeta.
  assert (Hok : not_OK (gate_of req) = false ->
                sonarqube_webhook env req w =
                  (Return {| code := 200;
                             body := MessageBody "Quality Gate OK, no action needed" |},
                   w)).
  { intros Hst. apply (sonarqube_webhook_OK env req p key w Hp Hk Hne Hst). }
  split; [| split; [exact Hok |]].
  - destruct (not_OK (gate_of req)) eqn:Hst; [reflexivity |].
    rewrite (Hok eq_refl). simpl. discriminate.
  - intros Hst.
    pose proof (sonarqube_webhook_failed env req p key w Hp Hk Hne Hst) as H.
    cbv zeta in H.
    destruct (retryOperation env (getServiceNowToken env)
                (opts 3 "servicenow-oauth") w) as [[token | v] w1].
    + destruct (retryOperation env
                  (createServiceNowIncident env token
                     (webhook_payload (project_name p) key (gate_of req)))
                  (opts 3 ("incident-" ++ key)) w1) as [[i | v] w2].
      * destruct H as (w3 & ->). simpl. split; [reflexivity | discriminate].
      * destruct H as (e & _ & ->). simpl. split; [reflexivity |].
        intros _. now exists (message e).
    + destruct H as (e & _ & ->). simpl. split; [reflexivity |].
      intros _. now exists (message e).
Qed.

(** A failed gate with every service up creates a ticket. *)
Lemma webhook_quality_gate_witness :
  Scenario.failed_gate_payload =
    webhook_payload (Some "Project One") "project1" (gate_of Scenario.failed_gate)
  /\ created_ticket
       (fst (sonarqube_webhook (Scenario.env true) Scenario.failed_gate
               Scenario.fresh_world)) = true.
Proof.
  split; [reflexivity |].
  destruct (webhook_quality_gate (Scenario.env true) Scenario.failed_gate
              {| project_key := Some "project1"; project_name := Some "Project One" |}
              "project1" Scenario.fresh_world) as (_ & _ & Hfailed).
  - reflexivity.
  - reflexivity.
  - discriminate.
  - destruct (Hfailed eq_refl) as [Heq _].
    rewrite Heq. vm_compute. reflexivity.
Defined.

(** ** Stale token under retry *)

(** Under one retry policy every incident POST carries the token the
    operation was built with, and nothing else is sent but the backoff
    sleeps: the wrapper never asks for a token. *)
Lemma retried_incident_reuses_token env token payload o w :
  exists evs,
    trace (snd (retryOperation env (createServiceNowIncident env token payload) o w))
      = (evs ++ trace w)%list
    /\ forallb (is_incident_or_sleep token payload) evs = true.
Proof. apply retried_incident. Qed.

(** C1, evaluated where the code departs from it: the cache holds a token
    the ticketing service rejects with 401, and the token endpoint would grant
    a token the service accepts.  The first 401 clears the cache, but the
    three retries post the same rejected token again, no OAuth exchange is
    sent, and the webhook ends in a 500. *)
Theorem stale_token_retried :
  let env := Scenario.env true in
  let p := Scenario.failed_gate_payload in
  let run := sonarqube_webhook env Scenario.failed_gate Scenario.stale_world in
  cache_cleared (snd (createServiceNowIncident env "stale" p Scenario.stale_world))
  /\ fst run =
       Return {| code := 500;
                 body := ErrorBody "Webhook processing failed"
                           (Some "ServiceNow incident error: 401 - {}") |}
  /\ rev (trace (snd run)) =
       [IncidentPost "stale" p; Sleep 550;
        IncidentPost "stale" p; Sleep 1050;
        IncidentPost "stale" p; Sleep 2050;
        IncidentPost "stale" p]
  /\ cache_cleared (snd run)
  /\ granted (oauth_post env (trace (snd run))) = Some ("fresh", 3600)
  /\ incident_post env (trace (snd run)) "fresh" p =
       Resolved (Some {| result := Some Scenario.ticket |}).
Proof.
  vm_compute. repeat split; reflexivity.
Qed.

(** * Further properties of the code *)

(** ** The retry wrapper *)

Section RetryMore.
Context {A : Type}.
Variable env : Env.
Variable fn : M A.
Variable o : RetryOpts.

Lemma exec_total attempt lastError w new r w' :
  retry_exec env fn o attempt lastError w new r w' ->
  factor o = 2 ->
  0 <= baseDelayMs o ->
  0 < jitterMs o ->
  0 <= attempt <= retries o ->
  0 <= total (delays new)
       <= baseDelayMs o * (2 ^ retries o - 2 ^ attempt)
          + (jitterMs o - 1) * (retries o - attempt).
Proof.
  induction 1; intros Hf Hb Hj Ha; simpl.
  - lia.
  - assert (2 ^ attempt <= 2 ^ retries o) by (apply Z.pow_le_mono_r; lia). nia.
  - subst attempt. lia.
  - assert (2 ^ attempt <= 2 ^ retries o) by (apply Z.pow_le_mono_r; lia). nia.
  - destruct (IHretry_exec Hf Hb Hj ltac:(lia)) as [Hlo Hhi].
    pose proof (jitter_range env o (trace w1) Hj) as Hjit.
    unfold backoff_delay. rewrite Hf.
    assert (Hpow : 2 ^ (attempt + 1) = 2 * 2 ^ attempt)
      by (rewrite Z.pow_add_r by lia; lia).
    assert (0 < 2 ^ attempt) by (apply Z.pow_pos_nonneg; lia).
    rewrite Hpow in Hhi. nia.
Qed.

End RetryMore.

(** X1: with a retry count of zero or more, the calls of one run are numbered
    0, 1, 2, ... without gap; every call but the last raised and was followed
    by exactly one sleep, and nothing follows the last call, so the wrapper
    stops at the first call that returns.  The numbered steps are what
    happened to the world: in order, each call is a call of the operation in
    the world reached so far, each sleep is a [Sleep] emitted to it, and the
    wrapper's final world is where they end. *)
Theorem retry_stops_at_first_return {A} env (fn : M A) o w :
  0 <= retries o ->
  numbered 0 (retry_steps env fn o w)
  /\ replays fn (retry_steps env fn o w) w (snd (retryOperation env fn o w)).
Proof.
  intros Hr. split.
  - apply (exec_numbered env fn o 0 JsUndefined w _ _ _ (retry_run_exec env fn o w)).
    exact Hr.
  - apply (exec_replays env fn o 0 JsUndefined w _ _ _ (retry_run_exec env fn o w)).
Qed.

(** The always-failing operation under [retries: 3]. *)
Lemma retry_stops_at_first_return_witness :
  0 <= retries (opts 3 "op")
  /\ numbered 0 (retry_steps (Scenario.env true) Scenario.failing (opts 3 "op")
                   Scenario.fresh_world)
  /\ trace (snd (retryOperation (Scenario.env true) Scenario.failing (opts 3 "op")
                   Scenario.fresh_world)) = [Sleep 2050; Sleep 1050; Sleep 550].
Proof.
  split; [discriminate |]. split; [| vm_compute; reflexivity].
  apply (retry_stops_at_first_return (Scenario.env true) Scenario.failing
           (opts 3 "op") Scenario.fresh_world).
  discriminate.
Defined.

(** X2: the wrapper adds nothing to a call that needs no retry.  With a retry
    count of zero it is the operation itself, whatever the operation does;
    and with any count of zero or more, an operation that returns at the
    first call gives the wrapper's result and world, with no sleep. *)
Theorem retry_transparent {A} env (fn : M A) o w :
  (retries o = 0 -> retryOperation env fn o w = fn w)
  /\ (0 <= retries o ->
      forall a w1, fn w = (Return a, w1) ->
        retryOperation env fn o w = (Return a, w1)
        /\ retry_steps env fn o w = [Invoked 0 None]).
Proof.
  pose proof (retry_run_exec env fn o w) as Hexec.
  split.
  - intros H0.
    destruct (fn w) as [[a | v] w1] eqn:Hfn.
    + assert (Hone : retry_exec env fn o 0 JsUndefined w [Invoked 0 None] (Return a) w1)
        by (apply exec_return; [lia | exact Hfn]).
      destruct (retry_exec_det env fn o _ _ _ _ _ _ Hone _ _ _ Hexec) as (_ & Hr & Hw).
      destruct (retryOperation env fn o w). simpl in *. congruence.
    + assert (Hone : retry_exec env fn o 0 JsUndefined w [Invoked 0 (Some v)] (Throw v) w1)
        by (apply exec_exhausted; [lia | exact Hfn]).
      destruct (retry_exec_det env fn o _ _ _ _ _ _ Hone _ _ _ Hexec) as (_ & Hr & Hw).
      destruct (retryOperation env fn o w). simpl in *. congruence.
  - intros Hr a w1 Hfn.
    assert (Hone : retry_exec env fn o 0 JsUndefined w [Invoked 0 None] (Return a) w1)
      by (apply exec_return; [lia | exact Hfn]).
    destruct (retry_exec_det env fn o _ _ _ _ _ _ Hone _ _ _ Hexec) as (Hs & Hr' & Hw).
    split; [| exact Hs].
    destruct (retryOperation env fn o w). simpl in *. congruence.
Qed.

(** A token served from the cache under [retries: 3]. *)
Lemma retry_transparent_witness :
  retryOperation (Scenario.env true) (getServiceNowToken (Scenario.env true))
    (opts 3 "servicenow-oauth") Scenario.stale_world
  = (Return "stale", Scenario.stale_world).
Proof.
  destruct (retry_transparent (Scenario.env true)
              (getServiceNowToken (Scenario.env true))
              (opts 3 "servicenow-oauth") Scenario.stale_world) as [_ H].
  apply (H ltac:(discriminate) "stale" Scenario.stale_world).
  vm_compute. reflexivity.
Defined.



(** ** The token cache *)

Section CacheMore.
Variable env : Env.

Lemma cache_hit_inv w tok :
  cache_hit env w = Some tok ->
  cachedToken w = Some tok /\ tok <> ""
  /\ exists expiry, tokenExpiry w = Some expiry
                    /\ Z.of_N (Date_now env (trace w)) < expiry - 300000.
Proof.
  unfold cache_hit.
  destruct (cachedToken w) as [t |]; [| discriminate].
  destruct (tokenExpiry w) as [e |]; [| discriminate].
  destruct (truthy_str (Some t)) eqn:Ht; simpl; [| discriminate].
  destruct (negb (e =? 0)); simpl; [| discriminate].
  destruct (Z.ltb_spec (Z.of_N (Date_now env (trace w))) (e - 300000));
    [| discriminate].
  intros [= <-].
  destruct (truthy_str_true _ Ht) as (s & [= <-] & Hs).
  repeat split; [exact Hs |]. now exists e.
Qed.

Lemma cache_miss_late w expiry :
  tokenExpiry w = Some expiry ->
  expiry - 300000 <= Z.of_N (Date_now env (trace w)) ->
  cache_hit env w = None.
Proof.
  intros He Hlate.
  destruct (cache_hit env w) as [tok |] eqn:Hhit; [| reflexivity].
  destruct (cache_hit_inv w tok Hhit) as (_ & _ & e & He' & Hnow).
  rewrite He in He'. injection He' as <-. lia.
Qed.

Lemma getServiceNowToken_miss_sends w :
  cache_hit env w = None ->
  trace (snd (getServiceNowToken env w)) = OAuthExchange :: trace w.
Proof.
  intros Hmiss.
  pose proof (getServiceNowToken_cases env w) as H.
  destruct (getServiceNowToken env w) as [[tok | v] w']; simpl.
  - destruct H as [[Hhit _] | (_ & Htr & _)]; [congruence | exact Htr].
  - tauto.
Qed.

End CacheMore.

Lemma getServiceNowToken_returns env w tok w' :
  getServiceNowToken env w = (Return tok, w') ->
  tok <> "" /\ cachedToken w' = Some tok /\ exists expiry, tokenExpiry w' = Some expiry.
Proof.
  intros Hrun.
  pose proof (getServiceNowToken_cases env w) as H. rewrite Hrun in H.
  destruct H as [[Hhit ->] | (_ & _ & e & Hg & Hc & He)].
  - destruct (cache_hit_inv env w tok Hhit) as (Hc & Hne & e & He & _).
    repeat split; [exact Hne | exact Hc | now exists e].
  - repeat split; [| exact Hc | eexists; exact He].
    unfold granted in Hg.
    destruct (oauth_post env (trace w)) as [[[[t |] x] |] | err]; try discriminate.
    simpl in Hg. destruct (String.eqb_spec t ""); simpl in Hg; [discriminate |].
    now injection Hg as <- _.
Qed.

(** X4: a token returned by [getServiceNowToken] is never the empty string,
    and after the call it is the cached token, stored with an expiry. *)
Theorem returned_token_is_cached env w tok w' :
  getServiceNowToken env w = (Return tok, w') ->
  tok <> "" /\ cachedToken w' = Some tok /\ exists expiry, tokenExpiry w' = Some expiry.
Proof. apply getServiceNowToken_returns. Qed.

(** The token endpoint grants ["fresh"]. *)
Lemma returned_token_is_cached_witness :
  "fresh" <> ""
  /\ cachedToken (snd (getServiceNowToken (Scenario.env true) Scenario.fresh_world))
     = Some "fresh"
  /\ exists expiry,
       tokenExpiry (snd (getServiceNowToken (Scenario.env true) Scenario.fresh_world))
       = Some expiry.
Proof.
  apply (returned_token_is_cached (Scenario.env true) Scenario.fresh_world "fresh").
  vm_compute. reflexivity.
Defined.

(** X5: a token fetched by an exchange is served from the cache, without a new
    exchange, at every later moment at which the cache is as the fetch left
    it and the clock is more than 300000 ms before the fetch time plus the
    token's lifetime; the lifetime is [expires_in] seconds, and 1800 seconds
    when [expires_in] is absent or 0. *)
Theorem fetched_token_served_until_buffer env w d tok w2 :
  cache_hit env w = None ->
  oauth_post env (trace w) = Resolved (Some d) ->
  access_token d = Some tok ->
  tok <> "" ->
  let lifetime := match expires_in d with
                  | Some n => if n =? 0 then 1800 else n
                  | None => 1800
                  end in
  let w1 := snd (getServiceNowToken env w) in
  same_cache w1 w2 ->
  Z.of_N (Date_now env (trace w2))
    < Z.of_N (Date_now env (trace w1)) + lifetime * 1000 - 300000 ->
  fst (getServiceNowToken env w) = Return tok
  /\ getServiceNowToken env w2 = (Return tok, w2).
Proof.
  intros Hmiss Hpost Htok Hne lifetime w1 [Hc He] Hnow.
  assert (Hg : granted (oauth_post env (trace w)) = Some (tok, lifetime)).
  { rewrite Hpost. unfold granted. rewrite Htok, (truthy_str_Some tok Hne).
    subst lifetime. destruct (expires_in d) as [n |]; simpl; [| reflexivity].
    destruct (n =? 0); reflexivity. }
  subst w1.
  rewrite (getServiceNowToken_miss_granted env w tok lifetime Hmiss Hg) in *.
  simpl in *. split; [reflexivity |].
  apply getServiceNowToken_hit.
  apply cache_hit_valid
    with (expiry := Z.of_N (Date_now env (OAuthExchange :: trace w)) + lifetime * 1000);
    [exact Hc | exact Hne | exact He | exact Hnow].
Qed.

(** A token fetched at start-up is served three sleeps later. *)
Lemma fetched_token_served_until_buffer_witness :
  let env := Scenario.env true in
  let w2 := emit (Sleep 2050) (emit (Sleep 1050) (emit (Sleep 550)
              (snd (getServiceNowToken env Scenario.fresh_world)))) in
  fst (getServiceNowToken env Scenario.fresh_world) = Return "fresh"
  /\ getServiceNowToken env w2 = (Return "fresh", w2).
Proof.
  apply (fetched_token_served_until_buffer (Scenario.env true) Scenario.fresh_world
           {| access_token := Some "fresh"; expires_in := Some 3600 |} "fresh").
  - reflexivity.
  - reflexivity.
  - reflexivity.
  - discriminate.
  - split; reflexivity.
  - vm_compute. reflexivity.
Defined.

(** X6: from 300000 ms before the stored expiry on (the boundary included),
    [getServiceNowToken] no longer serves the cached token: it sends the
    exchange, and a granted token replaces the cached one. *)
Theorem token_refetched_in_buffer env w expiry :
  tokenExpiry w = Some expiry ->
  expiry - 300000 <= Z.of_N (Date_now env (trace w)) ->
  trace (snd (getServiceNowToken env w)) = OAuthExchange :: trace w
  /\ forall tok expiresIn,
      granted (oauth_post env (trace w)) = Some (tok, expiresIn) ->
      fst (getServiceNowToken env w) = Return tok
      /\ cachedToken (snd (getServiceNowToken env w)) = Some tok.
Proof.
  intros He Hlate.
  pose proof (cache_miss_late env w expiry He Hlate) as Hmiss.
  split; [now apply getServiceNowToken_miss_sends |].
  intros tok expiresIn Hg.
  rewrite (getServiceNowToken_miss_granted env w tok expiresIn Hmiss Hg).
  split; reflexivity.
Qed.

(** The cached token of the scenario, read exactly 300000 ms before its
    expiry. *)
Lemma token_refetched_in_buffer_witness :
  let w := {| cachedToken := Some "stale";
              tokenExpiry := Some 1700000300000;
              trace := [] |} in
  getServiceNowToken (Scenario.env true) Scenario.stale_world
    = (Return "stale", Scenario.stale_world)
  /\ trace (snd (getServiceNowToken (Scenario.env true) w)) = [OAuthExchange].
Proof.
  split; [vm_compute; reflexivity |].
  apply (token_refetched_in_buffer (Scenario.env true)
           {| cachedToken := Some "stale"; tokenExpiry := Some 1700000300000;
              trace := [] |} 1700000300000).
  - reflexivity.
  - vm_compute. discriminate.
Defined.

(** X7: a token granted for 300 seconds or less is never served from the
    cache: at any later moment at which the clock has not gone back, the next
    call sends the exchange again. *)
Theorem short_lived_token_never_reused env w tok expiresIn w2 :
  cache_hit env w = None ->
  granted (oauth_post env (trace w)) = Some (tok, expiresIn) ->
  expiresIn <= 300 ->
  let w1 := snd (getServiceNowToken env w) in
  same_cache w1 w2 ->
  (Date_now env (trace w1) <= Date_now env (trace w2))%N ->
  trace (snd (getServiceNowToken env w2)) = OAuthExchange :: trace w2.
Proof.
  intros Hmiss Hg Hshort w1 [_ He] Hclock.
  subst w1.
  rewrite (getServiceNowToken_miss_granted env w tok expiresIn Hmiss Hg) in *.
  simpl in *.
  apply getServiceNowToken_miss_sends.
  eapply cache_miss_late; [exact He | lia].
Qed.

(** One-minute tokens: the second call, three seconds later, fetches
    again. *)
Lemma short_lived_token_never_reused_witness :
  let w1 := snd (getServiceNowToken Cases.short_lived Scenario.fresh_world) in
  cachedToken w1 = Some "brief"
  /\ trace (snd (getServiceNowToken Cases.short_lived (emit (Sleep 3000) w1)))
     = [OAuthExchange; Sleep 3000; OAuthExchange].
Proof.
  split; [reflexivity |].
  apply (short_lived_token_never_reused Cases.short_lived Scenario.fresh_world
           "brief" 60).
  - reflexivity.
  - reflexivity.
  - discriminate.
  - split; reflexivity.
  - vm_compute. discriminate.
Defined.

(** ** Failures of the downstream calls *)

(** X8: a success answer without the expected content is a failure.  An
    incident POST that resolves without [result] raises
    ["Incident creation failed: no result in response"], and an exchange that
    resolves without a non-empty [access_token] raises
    ["ServiceNow token missing in response"]; both errors pass through the
    function's own [catch] unchanged, and the cache is left as it was. *)
Theorem malformed_success_raises env w :
  (forall token payload d,
     incident_post env (trace w) token payload = Resolved d ->
     match d with Some {| result := Some _ |} => False | _ => True end ->
     createServiceNowIncident env token payload w =
       (Throw (JsErr (new_Error "Incident creation failed: no result in response")),
        emit (IncidentPost token payload) w))
  /\ (forall d,
        cache_hit env w = None ->
        oauth_post env (trace w) = Resolved d ->
        truthy_str (match d with Some x => access_token x | None => None end) = false ->
        getServiceNowToken env w =
          (Throw (JsErr (new_Error "ServiceNow token missing in response")),
           emit OAuthExchange w)).
Proof.
  split.
  - intros token payload d Hpost Hd.
    unfold createServiceNowIncident. unfold_monad. rewrite Hpost.
    destruct d as [[[i |]] |]; [contradiction | reflexivity | reflexivity].
  - intros d Hmiss Hpost Hd.
    unfold getServiceNowToken. rewrite Hmiss. unfold_monad. rewrite Hpost.
    destruct d as [[[t |] e] |]; simpl in *; [| reflexivity | reflexivity].
    unfold truthy_str in Hd. rewrite Hd. reflexivity.
Qed.

(** Both endpoints answer without content; an expired token stays cached. *)
Lemma malformed_success_raises_witness :
  createServiceNowIncident Cases.hollow "fresh" Scenario.failed_gate_payload
    Cases.expired_world
  = (Throw (JsErr (new_Error "Incident creation failed: no result in response")),
     emit (IncidentPost "fresh" Scenario.failed_gate_payload) Cases.expired_world)
  /\ getServiceNowToken Cases.hollow Cases.expired_world
     = (Throw (JsErr (new_Error "ServiceNow token missing in response")),
        emit OAuthExchange Cases.expired_world).
Proof.
  destruct (malformed_success_raises Cases.hollow Cases.expired_world) as [Hi Ht].
  split.
  - apply (Hi "fresh" Scenario.failed_gate_payload (Some {| result := None |}));
      [reflexivity | exact I].
  - apply (Ht (Some {| access_token := None; expires_in := Some 3600 |}));
      reflexivity.
Defined.

(** X9: whatever the three downstream functions raise is an [Error] object
    without a [response] property: an HTTP failure reaches the caller as a
    message only, so no caller can test its status code. *)
Theorem raised_errors_carry_no_response env w :
  (forall key v w',
     getSonarQubeProject env key w = (Throw v, w') ->
     exists e, v = JsErr e /\ response e = None)
  /\ (forall v w',
        getServiceNowToken env w = (Throw v, w') ->
        exists e, v = JsErr e /\ response e = None)
  /\ (forall token payload v w',
        createServiceNowIncident env token payload w = (Throw v, w') ->
        exists e, v = JsErr e /\ response e = None).
Proof.
  split; [| split].
  - intros key v w'. unfold getSonarQubeProject. unfold_monad.
    destruct (sonar_get env (trace w) key) as [d | e]; [discriminate |].
    destruct (response e) as [r |] eqn:Hr; [| destruct (request e)];
      intros [= <- _]; eexists; split; try reflexivity. exact Hr.
  - intros v w'. unfold getServiceNowToken.
    destruct (cache_hit env w); [discriminate |]. unfold_monad.
    destruct (oauth_post env (trace w)) as [[[[t |] x] |] | e]; simpl.
    + destruct (negb (String.eqb t "")); [discriminate |].
      intros [= <- _]. eexists; split; reflexivity.
    + intros [= <- _]. eexists; split; reflexivity.
    + intros [= <- _]. eexists; split; reflexivity.
    + destruct (response e) as [r |] eqn:Hr; [| destruct (request e)];
        intros [= <- _]; eexists; split; try reflexivity. exact Hr.
  - intros token payload v w'. unfold createServiceNowIncident. unfold_monad.
    destruct (incident_post env (trace w) token payload) as [[[[i |]] |] | e]; simpl.
    + discriminate.
    + intros [= <- _]. eexists; split; reflexivity.
    + intros [= <- _]. eexists; split; reflexivity.
    + unfold is_401.
      destruct (response e) as [r |] eqn:Hr.
      * destruct (resp_status r =? 401); simpl;
          intros [= <- _]; eexists; split; reflexivity.
      * destruct (request e); simpl;
          intros [= <- _]; eexists; split; try reflexivity. exact Hr.
Qed.

(** The 401 of the scenario reaches the caller as a message. *)
Lemma raised_errors_carry_no_response_witness :
  exists e,
    fst (createServiceNowIncident (Scenario.env true) "stale"
           Scenario.failed_gate_payload Scenario.stale_world) = Throw (JsErr e)
    /\ message e = "ServiceNow incident error: 401 - {}"
    /\ response e = None.
Proof.
  destruct (raised_errors_carry_no_response (Scenario.env true) Scenario.stale_world)
    as (_ & _ & H).
  destruct (H "stale" Scenario.failed_gate_payload
              (JsErr (new_Error "ServiceNow incident error: 401 - {}"))
              {| cachedToken := None; tokenExpiry := None;
                 trace := [IncidentPost "stale" Scenario.failed_gate_payload] |}
              eq_refl) as (e & He & Hresp).
  exists e. injection He as <-. repeat split.
Defined.

(** ** What a request puts on the wire *)

Lemma count_events_app P (l1 l2 : list Event) :
  count_events P (l1 ++ l2) = (count_events P l1 + count_events P l2)%nat.
Proof. unfold count_events. now rewrite filter_app, length_app. Qed.

Lemma count_events_le P P' (l : list Event) :
  (forall ev, P ev = true -> P' ev = true) ->
  (count_events P l <= count_events P' l)%nat.
Proof.
  intros H. unfold count_events.
  induction l as [| ev l IH]; simpl; [lia |].
  destruct (P ev) eqn:HP.
  - rewrite (H ev HP). simpl. lia.
  - destruct (P' ev); simpl; lia.
Qed.

Lemma count_events_none P Q (l : list Event) :
  forallb Q l = true ->
  (forall ev, Q ev = true -> P ev = false) ->
  count_events P l = 0%nat.
Proof.
  intros Hall H. unfold count_events.
  induction l as [| ev l IH]; simpl in *; [reflexivity |].
  apply andb_true_iff in Hall as [Hev Hl].
  rewrite (H ev Hev). now apply IH.
Qed.

Lemma budget_app a b c d a' b' c' d' l1 l2 :
  budget a b c d l1 -> budget a' b' c' d' l2 ->
  budget (a + a') (b + b') (c + c') (d + d') (l1 ++ l2).
Proof.
  unfold budget. intros (?&?&?&?) (?&?&?&?).
  rewrite !count_events_app. lia.
Qed.

Lemma budget_weaken a b c d a' b' c' d' l :
  budget a b c d l ->
  (a <= a')%nat -> (b <= b')%nat -> (c <= c')%nat -> (d <= d')%nat ->
  budget a' b' c' d' l.
Proof. unfold budget. intros (?&?&?&?) ? ? ? ?. lia. Qed.

Lemma added_unique w w' evs evs' :
  added w w' evs -> added w w' evs' -> evs' = evs.
Proof.
  unfold added. intros H H'. rewrite H in H'.
  now apply app_inv_tail in H'.
Qed.

Lemma added_trans w1 w2 w3 e1 e2 :
  added w1 w2 e1 -> added w2 w3 e2 -> added w1 w3 (e2 ++ e1).
Proof. unfold added. intros H1 H2. rewrite H2, H1. apply app_assoc. Qed.

Section Wire.
Variable env : Env.

Lemma exec_events {A} (fn : M A) o (Q : Event -> bool) :
  one_shot Q fn ->
  forall attempt lastError w new r w',
    retry_exec env fn o attempt lastError w new r w' ->
    exists evs,
      added w w' evs
      /\ forallb (fun ev => Q ev || is_sleep ev)%bool evs = true
      /\ (count_events (fun ev => negb (is_sleep ev)) evs <= invocations new)%nat.
Proof.
  intros Hfn.
  assert (Hcall : forall w r w1, fn w = (r, w1) ->
            exists evs, added w w1 evs
              /\ forallb (fun ev => Q ev || is_sleep ev)%bool evs = true
              /\ (count_events (fun ev => negb (is_sleep ev)) evs <= 1)%nat).
  { intros w r w1 Hrun. specialize (Hfn w). rewrite Hrun in Hfn. simpl in Hfn.
    destruct Hfn as [Heq | (ev & HQ & Hs & Heq)].
    - exists []. repeat split; [exact Heq | apply Nat.le_0_l].
    - exists [ev]. unfold count_events. simpl. rewrite HQ, Hs. simpl.
      repeat split; [exact Heq | apply Nat.le_refl]. }
  induction 1.
  - exists []. repeat split. apply Nat.le_0_l.
  - destruct (Hcall _ _ _ H0) as (evs & Ha & Hall & Hn). exists evs. auto.
  - destruct (Hcall _ _ _ H0) as (evs & Ha & Hall & Hn). exists evs. auto.
  - destruct (Hcall _ _ _ H0) as (evs & Ha & Hall & Hn). exists evs. auto.
  - destruct (Hcall _ _ _ H0) as (e1 & Ha1 & Hall1 & Hn1).
    destruct IHretry_exec as (e2 & Ha2 & Hall2 & Hn2).
    exists (e2 ++ Sleep (backoff_delay env o attempt (trace w1)) :: e1)%list.
    split; [| split].
    + unfold added in *. rewrite Ha2. simpl. rewrite Ha1.
      rewrite <- app_assoc. reflexivity.
    + rewrite forallb_app, Hall2. simpl. rewrite Hall1, orb_true_r. reflexivity.
    + rewrite count_events_app. unfold count_events at 2. simpl.
      fold (count_events (fun ev => negb (is_sleep ev)) e1). lia.
Qed.

(** One retried call on the wire: events of kind [Q] and sleeps only, and at
    most [retries + 1] events that are not sleeps. *)
Lemma retried_events {A} (fn : M A) o (Q : Event -> bool) w :
  one_shot Q fn ->
  0 <= retries o ->
  exists evs,
    added w (snd (retryOperation env fn o w)) evs
    /\ forallb (fun ev => Q ev || is_sleep ev)%bool evs = true
    /\ (count_events (fun ev => negb (is_sleep ev)) evs <= Z.to_nat (retries o + 1))%nat.
Proof.
  intros Hfn Hr.
  pose proof (retry_run_exec env fn o w) as Hexec.
  destruct (exec_events fn o Q Hfn _ _ _ _ _ _ Hexec) as (evs & Ha & Hall & Hn).
  destruct (exec_invocations env fn o _ _ _ _ _ _ Hexec ltac:(lia)) as [_ Hmax].
  exists evs. repeat split; [exact Ha | exact Hall | lia].
Qed.

Lemma one_shot_lookup key : one_shot (is_search_for key) (getSonarQubeProject env key).
Proof.
  intros w. right. exists (SonarSearch key).
  destruct (getSonarQubeProject_run env key w) as (r & -> & _).
  simpl. now rewrite String.eqb_refl.
Qed.

Lemma payload_eqb_refl p : payload_eqb p p = true.
Proof. unfold payload_eqb. now rewrite !String.eqb_refl. Qed.

Lemma one_shot_incident token payload :
  one_shot (is_post_of token payload) (createServiceNowIncident env token payload).
Proof.
  intros w. right. exists (IncidentPost token payload).
  destruct (createServiceNowIncident_run env token payload w) as (r & w' & -> & Htr & _).
  simpl. now rewrite String.eqb_refl, payload_eqb_refl.
Qed.

Lemma one_shot_token : one_shot is_exchange (getServiceNowToken env).
Proof.
  intros w.
  pose proof (getServiceNowToken_cases env w) as H.
  destruct (getServiceNowToken env w) as [[tok | v] w']; simpl.
  - destruct H as [[_ ->] | (_ & Htr & _)]; [now left |].
    right. now exists OAuthExchange.
  - destruct H as (_ & _ & _ & Htr & _). right. now exists OAuthExchange.
Qed.

Lemma one_shot_mail i key projectName :
  one_shot is_mail (sendIncidentEmail env i key projectName).
Proof.
  intros w.
  destruct (sendIncidentEmail_run env i key projectName w)
    as (w' & -> & _ & [-> | (t & m & ->)]); simpl.
  - now left.
  - right. now exists (SendMail t m).
Qed.

End Wire.

Lemma kind_absent Q K (evs : list Event) :
  forallb (fun ev => Q ev || is_sleep ev)%bool evs = true ->
  (forall ev, Q ev = true -> K ev = false) ->
  (forall ev, is_sleep ev = true -> K ev = false) ->
  count_events K evs = 0%nat.
Proof.
  intros Hall HQ Hs.
  apply count_events_none with (Q := fun ev => (Q ev || is_sleep ev)%bool);
    [exact Hall |].
  intros ev H. apply orb_true_iff in H as [H | H]; auto.
Qed.

Lemma kind_counted K (evs : list Event) n :
  (count_events (fun ev => negb (is_sleep ev)) evs <= n)%nat ->
  (forall ev, K ev = true -> is_sleep ev = false) ->
  (count_events K evs <= n)%nat.
Proof.
  intros Hn HK.
  pose proof (count_events_le K (fun ev => negb (is_sleep ev)) evs) as H.
  assert (count_events K evs <= count_events (fun ev => negb (is_sleep ev)) evs)%nat.
  { apply H. intros ev Hev. now rewrite (HK ev Hev). }
  lia.
Qed.

Ltac solve_kind :=
  match goal with
  | |- count_events _ _ = 0%nat =>
      eapply kind_absent; [eassumption | |];
      intros [] ?; (reflexivity || discriminate)
  | |- (count_events _ _ <= _)%nat =>
      first
        [ eapply kind_counted; [eassumption |];
          intros [] ?; (reflexivity || discriminate)
        | match goal with
          | |- (?c <= _)%nat =>
              let H := fresh in
              assert (H : c = 0%nat)
                by (eapply kind_absent; [eassumption | |];
                    intros [] ?; (reflexivity || discriminate));
              rewrite H; apply Nat.le_0_l
          end ]
  end.

Section Stages.
Variable env : Env.

Lemma token_stage o w :
  0 <= retries o ->
  exists evs,
    added w (snd (retryOperation env (getServiceNowToken env) o w)) evs
    /\ forallb (fun ev => is_exchange ev || is_sleep ev)%bool evs = true
    /\ budget 0 (Z.to_nat (retries o + 1)) 0 0 evs.
Proof.
  intros Hr.
  destruct (retried_events env (getServiceNowToken env) o is_exchange w
              (one_shot_token env) Hr) as (evs & Ha & Hall & Hn).
  exists evs. split; [exact Ha |]. split; [exact Hall |].
  unfold budget. repeat split; solve_kind.
Qed.

Lemma lookup_stage key o w :
  0 <= retries o ->
  exists evs,
    added w (snd (retryOperation env (getSonarQubeProject env key) o w)) evs
    /\ forallb (fun ev => is_search_for key ev || is_sleep ev)%bool evs = true
    /\ budget (Z.to_nat (retries o + 1)) 0 0 0 evs.
Proof.
  intros Hr.
  destruct (retried_events env (getSonarQubeProject env key) o (is_search_for key) w
              (one_shot_lookup env key) Hr) as (evs & Ha & Hall & Hn).
  exists evs. split; [exact Ha |]. split; [exact Hall |].
  unfold budget. repeat split; solve_kind.
Qed.

Lemma incident_stage token payload o w :
  0 <= retries o ->
  exists evs,
    added w (snd (retryOperation env (createServiceNowIncident env token payload) o w)) evs
    /\ forallb (fun ev => is_post_of token payload ev || is_sleep ev)%bool evs = true
    /\ budget 0 0 (Z.to_nat (retries o + 1)) 0 evs.
Proof.
  intros Hr.
  destruct (retried_events env (createServiceNowIncident env token payload) o
              (is_post_of token payload) w
              (one_shot_incident env token payload) Hr) as (evs & Ha & Hall & Hn).
  exists evs. split; [exact Ha |]. split; [exact Hall |].
  unfold budget. repeat split; solve_kind.
Qed.

Lemma mail_stage i key projectName w :
  exists evs,
    added w (snd (sendIncidentEmail env i key projectName w)) evs
    /\ forallb is_mail evs = true
    /\ budget 0 0 0 1 evs.
Proof.
  destruct (sendIncidentEmail_run env i key projectName w)
    as (w' & -> & _ & [-> | (t & m & ->)]); simpl.
  - exists []. repeat split; apply Nat.le_0_l.
  - exists [SendMail t m]. repeat split; unfold count_events; simpl; lia.
Qed.

End Stages.

Section Requests.
Variable env : Env.

Lemma get_message_world v w : snd (get_message v w) = w.
Proof. destruct v; reflexivity. Qed.

(** The worlds the webhook can end in, stage by stage. *)
Lemma sonarqube_webhook_world req w :
  let run := sonarqube_webhook env req w in
  snd run = w
  \/ exists p key,
       project req = Some p /\ project_key p = Some key /\ key <> ""
       /\ not_OK (gate_of req) = true
       /\ match retryOperation env (getServiceNowToken env)
                  (opts 3 "servicenow-oauth") w with
          | (Throw _, w1) => snd run = w1
          | (Return token, w1) =>
              match retryOperation env
                      (createServiceNowIncident env token
                         (webhook_payload (project_name p) key (gate_of req)))
                      (opts 3 ("incident-" ++ key)) w1 with
              | (Throw _, w2) => snd run = w2
              | (Return i, w2) =>
                  snd run = snd (sendIncidentEmail env i key (project_name p) w2)
              end
          end.
Proof.
  cbv zeta.
  destruct (project req) as [p |] eqn:Hp;
    [| left; unfold sonarqube_webhook, try_catch; rewrite Hp; reflexivity].
  destruct (project_key p) as [key |] eqn:Hk;
    [| left; unfold sonarqube_webhook, try_catch; rewrite Hp, Hk; reflexivity].
  destruct (String.eqb_spec key "") as [-> | Hne];
    [left; unfold sonarqube_webhook, try_catch; rewrite Hp, Hk; reflexivity |].
  destruct (not_OK (gate_of req)) eqn:Hst;
    [| left; now rewrite (sonarqube_webhook_OK env req p key w Hp Hk Hne Hst)].
  right. exists p, key. repeat split; try assumption.
  pose proof (sonarqube_webhook_failed env req p key w Hp Hk Hne Hst) as H.
  cbv zeta in H.
  assert (Hunfold :
    sonarqube_webhook env req w =
    try_catch
      (token <- retryOperation env (getServiceNowToken env)
                  (opts 3 "servicenow-oauth") ;;
       i <- retryOperation env
              (createServiceNowIncident env token
                 (webhook_payload (project_name p) key (gate_of req)))
              (opts 3 ("incident-" ++ key)) ;;
       sendIncidentEmail env i key (project_name p) ;;;
       ret {| code := 200;
              body := IncidentBody "Incident created from webhook"
                        {| number := number i; sys_id := sys_id i |} |})
      (fun error =>
         msg <- get_message error ;;
         ret {| code := 500;
                body := ErrorBody "Webhook processing failed" (Some msg) |})
      w).
  { unfold sonarqube_webhook. fold (gate_of req). rewrite Hp, Hk.
    rewrite (truthy_str_Some key Hne). simpl negb. rewrite Hst. reflexivity. }
  rewrite Hunfold. clear H Hunfold. unfold try_catch, bind.
  destruct (retryOperation env (getServiceNowToken env)
              (opts 3 "servicenow-oauth") w) as [[token | v] w1].
  - destruct (retryOperation env
                (createServiceNowIncident env token
                   (webhook_payload (project_name p) key (gate_of req)))
                (opts 3 ("incident-" ++ key)) w1) as [[i | v] w2].
    + destruct (sendIncidentEmail env i key (project_name p) w2) as [[[] | v] w3];
        simpl; [reflexivity |].
      destruct v; reflexivity.
    + destruct v; reflexivity.
  - destruct v; reflexivity.
Qed.

Lemma post_of_webhook token projectName key st ev :
  is_post_of token (webhook_payload projectName key st) ev = true ->
  webhook_event ev = true.
Proof.
  destruct ev as [k | | t p | t m | ms]; try discriminate.
  unfold is_post_of, payload_eqb, webhook_event.
  cbn [urgency impact webhook_payload].
  intros H.
  apply andb_true_iff in H as [_ H].
  apply andb_true_iff in H as [H Hi].
  apply andb_true_iff in H as [_ Hu].
  now rewrite Hu, Hi.
Qed.

Lemma webhook_wire req w :
  exists evs,
    added w (snd (sonarqube_webhook env req w)) evs
    /\ forallb webhook_event evs = true
    /\ budget 0 4 4 1 evs.
Proof.
  destruct (sonarqube_webhook_world req w) as [-> | (p & key & _ & _ & _ & _ & H)].
  { exists []. repeat split; apply Nat.le_0_l. }
  destruct (token_stage env (opts 3 "servicenow-oauth") w ltac:(discriminate))
    as (e1 & Ha1 & Hall1 & Hb1).
  destruct (retryOperation env (getServiceNowToken env)
              (opts 3 "servicenow-oauth") w) as [[token | v] w1]; simpl in Ha1.
  2: { rewrite H. exists e1. split; [exact Ha1 |]. split.
       - revert Hall1. apply forallb_impl. intros [] Hev; try discriminate; reflexivity.
       - eapply budget_weaken; [exact Hb1 | simpl; lia ..]. }
  destruct (incident_stage env token
              (webhook_payload (project_name p) key (gate_of req))
              (opts 3 ("incident-" ++ key)) w1 ltac:(discriminate))
    as (e2 & Ha2 & Hall2 & Hb2).
  assert (Hev12 : forallb webhook_event (e2 ++ e1) = true).
  { rewrite forallb_app. apply andb_true_iff. split.
    - revert Hall2. apply forallb_impl. intros ev Hev.
      apply orb_true_iff in Hev as [Hev | Hev].
      + eapply post_of_webhook; exact Hev.
      + destruct ev; try discriminate; reflexivity.
    - revert Hall1. apply forallb_impl. intros [] Hev; try discriminate; reflexivity. }
  destruct (retryOperation env
              (createServiceNowIncident env token
                 (webhook_payload (project_name p) key (gate_of req)))
              (opts 3 ("incident-" ++ key)) w1) as [[i | v] w2]; simpl in Ha2.
  2: { rewrite H. exists (e2 ++ e1)%list.
       split; [eapply added_trans; eassumption |]. split; [exact Hev12 |].
       eapply budget_weaken; [exact (budget_app _ _ _ _ _ _ _ _ _ _ Hb2 Hb1) | simpl; lia ..]. }
  destruct (mail_stage env i key (project_name p) w2) as (e3 & Ha3 & Hall3 & Hb3).
  rewrite H. exists (e3 ++ e2 ++ e1)%list.
  split; [eapply added_trans; [eapply added_trans |]; eassumption |].
  split.
  - rewrite forallb_app, Hev12, andb_true_r.
    revert Hall3. apply forallb_impl. intros [] Hev; try discriminate; reflexivity.
  - eapply budget_weaken;
      [exact (budget_app _ _ _ _ _ _ _ _ _ _ Hb3
                (budget_app _ _ _ _ _ _ _ _ _ _ Hb2 Hb1)) | simpl; lia ..].
Qed.

End Requests.

(** X10: whatever the request and whatever the services answer, one webhook
    request sends at most 4 OAuth exchanges, at most 4 incident POSTs and at
    most one mail; it never searches the quality service, and every incident
    POST it sends has urgency and impact ["2"]. *)
Theorem webhook_call_budget env req w :
  exists evs,
    trace (snd (sonarqube_webhook env req w)) = (evs ++ trace w)%list
    /\ forallb webhook_event evs = true
    /\ (count_events is_search evs = 0)%nat
    /\ (count_events is_exchange evs <= 4)%nat
    /\ (count_events is_post evs <= 4)%nat
    /\ (count_events is_mail evs <= 1)%nat.
Proof.
  destruct (webhook_wire env req w) as (evs & Ha & Hall & (Hs & Hx & Hp & Hm)).
  exists evs. repeat split; try assumption. lia.
Qed.

Section BatchWire.
Variable env : Env.

Lemma search_of_batch token key keys ev :
  In key keys ->
  (is_search_for key ev || is_sleep ev)%bool = true ->
  batch_event token keys ev = true.
Proof.
  intros Hin.
  destruct ev as [k | | t p | t m | ms]; simpl; try discriminate; try reflexivity.
  rewrite orb_false_r. intros Hk. apply String.eqb_eq in Hk. subst k.
  apply existsb_exists. exists key. split; [exact Hin | apply String.eqb_refl].
Qed.

Lemma post_of_batch token c key keys ev :
  (is_post_of token (batch_payload c key) ev || is_sleep ev)%bool = true ->
  batch_event token keys ev = true.
Proof.
  destruct ev as [k | | t p | t m | ms]; try discriminate; try reflexivity.
  unfold is_post_of, payload_eqb, batch_event, is_sleep.
  cbn [urgency impact batch_payload]. rewrite orb_false_r.
  intros H.
  apply andb_true_iff in H as [Ht H].
  apply andb_true_iff in H as [H Hi].
  apply andb_true_iff in H as [_ Hu].
  now rewrite Ht, Hu, Hi.
Qed.

Lemma batch_item_wire token key keys results w :
  In key keys ->
  exists evs,
    added w (snd (batch_item env token key results w)) evs
    /\ forallb (batch_event token keys) evs = true
    /\ budget 3 0 4 1 evs.
Proof.
  intros Hin.
  pose proof (batch_item_cases env token key results w) as H.
  destruct (lookup_stage env key (opts 2 ("sonarqube-" ++ key)) w ltac:(discriminate))
    as (e1 & Ha1 & Hall1 & Hb1).
  assert (Hev1 : forallb (batch_event token keys) e1 = true).
  { revert Hall1. apply forallb_impl. intros ev. now apply search_of_batch. }
  assert (Hb1' : budget 3 0 4 1 e1).
  { eapply budget_weaken; [exact Hb1 | simpl; lia ..]. }
  destruct (retryOperation env (getSonarQubeProject env key)
              (opts 2 ("sonarqube-" ++ key)) w) as [[d | v] w1]; simpl in Ha1.
  2: { destruct H as (e & _ & ->). exists e1. auto. }
  destruct (first_component d) as [c |].
  2: { rewrite H. exists e1. auto. }
  destruct (incident_stage env token (batch_payload c key)
              (opts 3 ("incident-" ++ key)) w1 ltac:(discriminate))
    as (e2 & Ha2 & Hall2 & Hb2).
  assert (Hev2 : forallb (batch_event token keys) (e2 ++ e1) = true).
  { rewrite forallb_app, Hev1, andb_true_r.
    revert Hall2. apply forallb_impl. intros ev. apply post_of_batch. }
  pose proof (budget_app _ _ _ _ _ _ _ _ _ _ Hb2 Hb1) as Hb12.
  destruct (retryOperation env
              (createServiceNowIncident env token (batch_payload c key))
              (opts 3 ("incident-" ++ key)) w1) as [[i | v] w2]; simpl in Ha2.
  2: { destruct H as (e & _ & ->). exists (e2 ++ e1)%list.
       split; [eapply added_trans; eassumption |]. split; [exact Hev2 |].
       eapply budget_weaken; [exact Hb12 | simpl; lia ..]. }
  destruct H as (w3 & -> & _ & [-> | (t & m & ->)]); simpl.
  - exists (e2 ++ e1)%list.
    split; [eapply added_trans; eassumption |]. split; [exact Hev2 |].
    eapply budget_weaken; [exact Hb12 | simpl; lia ..].
  - exists (SendMail t m :: e2 ++ e1)%list.
    split; [| split].
    + unfold added in *. simpl. rewrite Ha2, Ha1. now rewrite app_assoc.
    + simpl. exact Hev2.
    + destruct Hb12 as (Hs & Hx & Hp & Hm).
      unfold budget, count_events in *. simpl in *. lia.
Qed.

Lemma batch_loop_wire token all keys :
  incl keys all ->
  forall results w,
    exists evs,
      added w (snd (batch_loop env token keys results w)) evs
      /\ forallb (batch_event token all) evs = true
      /\ budget (3 * List.length keys) 0 (4 * List.length keys) (List.length keys) evs.
Proof.
  induction keys as [| key rest IH]; intros Hincl results w.
  - exists []. repeat split; apply Nat.le_0_l.
  - destruct (batch_item_wire token key all results w (Hincl key (in_eq key rest)))
      as (e1 & Ha1 & Hall1 & Hb1).
    destruct (batch_item_run env token key results w) as (rec & w1 & Hitem & _).
    rewrite Hitem in Ha1. simpl in Ha1.
    destruct (IH (fun k Hk => Hincl k (in_cons key k rest Hk))
                 (results ++ [rec])%list w1) as (e2 & Ha2 & Hall2 & Hb2).
    exists (e2 ++ e1)%list.
    split; [| split].
    + cbn [batch_loop]. unfold bind. rewrite Hitem.
      eapply added_trans; eassumption.
    + now rewrite forallb_app, Hall1, Hall2.
    + eapply budget_weaken;
        [exact (budget_app _ _ _ _ _ _ _ _ _ _ Hb2 Hb1) | simpl List.length; lia ..].
Qed.

Lemma create_incidents_world keys w :
  let run := create_incidents env (Some keys) w in
  (snd run = w /\ exists msg, fst run = Return {| code := 400; body := ErrorBody msg None |})
  \/ ((1 <= List.length keys <= 50)%nat
      /\ match retryOperation env (getServiceNowToken env)
                 (opts 3 "servicenow-oauth") w with
         | (Throw _, w1) => snd run = w1
         | (Return token, w1) => snd run = snd (batch_loop env token keys [] w1)
         end).
Proof.
  cbv zeta.
  pose proof (create_incidents_cases env keys w) as H.
  destruct (Nat.eqb_spec (List.length keys) 0) as [H0 | H0]; cbn [orb] in H.
  { destruct H as (msg & ->). left. split; [reflexivity | now exists msg]. }
  destruct (Nat.ltb_spec 50 (List.length keys)) as [H50 | H50].
  { destruct H as (msg & ->). left. split; [reflexivity | now exists msg]. }
  right. split; [lia |].
  destruct (retryOperation env (getServiceNowToken env)
              (opts 3 "servicenow-oauth") w) as [[token | v] w1].
  - destruct H as (recs & w' & Hloop & ->). now rewrite Hloop.
  - destruct H as (e & _ & ->). reflexivity.
Qed.

End BatchWire.

(** X11: the batch loop never asks for a token.  For every token and key list,
    what it sends is searches for keys of the list, incident POSTs carrying
    the token it was given with urgency and impact ["3"], mails and sleeps:
    at most 3 searches, 4 POSTs and one mail per key, and no OAuth exchange,
    also after a 401 has cleared the cache. *)
Theorem batch_loop_never_refreshes env token keys w :
  exists evs,
    trace (snd (batch_loop env token keys [] w)) = (evs ++ trace w)%list
    /\ forallb (batch_event token keys) evs = true
    /\ (count_events is_exchange evs = 0)%nat
    /\ (count_events is_search evs <= 3 * List.length keys)%nat
    /\ (count_events is_post evs <= 4 * List.length keys)%nat
    /\ (count_events is_mail evs <= List.length keys)%nat.
Proof.
  destruct (batch_loop_wire env token keys keys (incl_refl keys) [] w)
    as (evs & Ha & Hall & (Hs & Hx & Hp & Hm)).
  exists evs. repeat split; try assumption. lia.
Qed.

(** X12: one batch request, whatever its keys and whatever the services
    answer, sends at most 4 OAuth exchanges, 150 project searches, 200
    incident POSTs and 50 mails. *)
Theorem batch_call_budget env keys w :
  exists evs,
    trace (snd (create_incidents env (Some keys) w)) = (evs ++ trace w)%list
    /\ (count_events is_exchange evs <= 4)%nat
    /\ (count_events is_search evs <= 150)%nat
    /\ (count_events is_post evs <= 200)%nat
    /\ (count_events is_mail evs <= 50)%nat.
Proof.
  destruct (create_incidents_world env keys w) as [[-> _] | [Hlen H]].
  { exists []. repeat split; apply Nat.le_0_l. }
  destruct (token_stage env (opts 3 "servicenow-oauth") w ltac:(discriminate))
    as (e1 & Ha1 & _ & (Hs1 & Hx1 & Hp1 & Hm1)).
  destruct (retryOperation env (getServiceNowToken env)
              (opts 3 "servicenow-oauth") w) as [[token | v] w1]; simpl in Ha1.
  - destruct (batch_loop_wire env token keys keys (incl_refl keys) [] w1)
      as (e2 & Ha2 & _ & (Hs2 & Hx2 & Hp2 & Hm2)).
    rewrite H. exists (e2 ++ e1)%list.
    split; [eapply added_trans; eassumption |].
    rewrite !count_events_app. simpl in *. lia.
  - rewrite H. exists e1. split; [exact Ha1 |]. simpl in *. lia.
Qed.

(** ** The answers of the two POST endpoints *)

(** X13: the batch endpoint answers 400 exactly when [projectKeys] is not an
    array, is empty, or has more than 50 entries (50 are accepted), and then
    nothing has been sent and the cache is untouched; it never raises. *)
Theorem batch_size_guard env projectKeys w :
  let bad := match projectKeys with
             | None => true
             | Some keys =>
                 (Nat.eqb (List.length keys) 0 || Nat.ltb 50 (List.length keys))%bool
             end in
  match create_incidents env projectKeys w with
  | (Return resp, w') =>
      (code resp = 400 <-> bad = true) /\ (bad = true -> w' = w)
  | (Throw _, _) => False
  end.
Proof.
  cbv zeta. destruct projectKeys as [keys |]; [| simpl; tauto].
  pose proof (create_incidents_cases env keys w) as H.
  destruct (Nat.eqb (List.length keys) 0 || Nat.ltb 50 (List.length keys))%bool.
  - destruct H as (msg & ->). simpl. tauto.
  - destruct (retryOperation env (getServiceNowToken env)
                (opts 3 "servicenow-oauth") w) as [[token | v] w1].
    + destruct H as (recs & w' & _ & ->). simpl.
      split; [split |]; discriminate.
    + destruct H as (e & _ & ->). simpl.
      split; [split |]; discriminate.
Qed.

(** X14: when the token cannot be acquired before the loop, the whole batch
    fails: the answer is the 500 ["Batch processing failed"] with the message
    of the last acquisition error, there are no per-key results, and nothing
    but OAuth exchanges (at most 4) and sleeps has been sent. *)
Theorem batch_token_failure_is_fatal env keys w v w1 :
  (1 <= List.length keys <= 50)%nat ->
  retryOperation env (getServiceNowToken env) (opts 3 "servicenow-oauth") w
    = (Throw v, w1) ->
  exists e,
    v = JsErr e
    /\ create_incidents env (Some keys) w =
         (Return {| code := 500;
                    body := ErrorBody "Batch processing failed" (Some (message e)) |},
          w1)
    /\ exists evs,
         trace w1 = (evs ++ trace w)%list
         /\ forallb (fun ev => is_exchange ev || is_sleep ev)%bool evs = true
         /\ (count_events is_exchange evs <= 4)%nat.
Proof.
  intros Hlen Htok.
  pose proof (create_incidents_cases env keys w) as H.
  destruct (Nat.eqb_spec (List.length keys) 0) as [H0 | _]; [lia |].
  destruct (Nat.ltb_spec 50 (List.length keys)) as [H50 | _]; [lia |].
  cbn [orb] in H. rewrite Htok in H.
  destruct H as (e & -> & Hrun). exists e. repeat split; [exact Hrun |].
  destruct (token_stage env (opts 3 "servicenow-oauth") w ltac:(discriminate))
    as (evs & Ha & Hall & (_ & Hx & _)).
  rewrite Htok in Ha. exists evs. auto.
Qed.

(** The token endpoint is down. *)
Lemma batch_token_failure_is_fatal_witness :
  create_incidents (Scenario.env false) (Some ["a"; "b"]) Scenario.fresh_world
  = (Return {| code := 500;
               body := ErrorBody "Batch processing failed"
                         (Some "ServiceNow OAuth unreachable: connect ECONNREFUSED") |},
     snd (retryOperation (Scenario.env false) (getServiceNowToken (Scenario.env false))
            (opts 3 "servicenow-oauth") Scenario.fresh_world)).
Proof.
  destruct (batch_token_failure_is_fatal (Scenario.env false) ["a"; "b"]
              Scenario.fresh_world
              (JsErr (new_Error "ServiceNow OAuth unreachable: connect ECONNREFUSED"))
              (snd (retryOperation (Scenario.env false)
                      (getServiceNowToken (Scenario.env false))
                      (opts 3 "servicenow-oauth") Scenario.fresh_world)))
    as (e & He & Hrun & _).
  - simpl. lia.
  - vm_compute. reflexivity.
  - injection He as <-. exact Hrun.
Defined.

(** X15: the webhook endpoint always answers and never raises: 400 exactly
    when [project.key] is absent or empty, whatever the gate status, and then
    nothing has been sent; otherwise 200 or 500. *)
Theorem webhook_always_answers env req w :
  let missing := negb (truthy_str (match project req with
                                   | Some p => project_key p
                                   | None => None
                                   end)) in
  match sonarqube_webhook env req w with
  | (Return resp, w') =>
      (code resp = 400 <-> missing = true)
      /\ (missing = true -> w' = w)
      /\ (code resp = 200 \/ code resp = 400 \/ code resp = 500)
  | (Throw _, _) => False
  end.
Proof.
  cbv zeta.
  destruct (project req) as [p |] eqn:Hp.
  2: { unfold sonarqube_webhook, try_catch. rewrite Hp. simpl. tauto. }
  destruct (project_key p) as [key |] eqn:Hk.
  2: { unfold sonarqube_webhook, try_catch. rewrite Hp, Hk. simpl. tauto. }
  destruct (String.eqb_spec key "") as [-> | Hne].
  { unfold sonarqube_webhook, try_catch. rewrite Hp, Hk. simpl. tauto. }
  rewrite (truthy_str_Some key Hne). simpl negb.
  destruct (not_OK (gate_of req)) eqn:Hst.
  - pose proof (sonarqube_webhook_failed env req p key w Hp Hk Hne Hst) as H.
    cbv zeta in H.
    destruct (retryOperation env (getServiceNowToken env)
                (opts 3 "servicenow-oauth") w) as [[token | v] w1].
    + destruct (retryOperation env
                  (createServiceNowIncident env token
                     (webhook_payload (project_name p) key (gate_of req)))
                  (opts 3 ("incident-" ++ key)) w1) as [[i | v] w2].
      * destruct H as (w3 & ->). simpl.
        split; [split; discriminate |]. split; [discriminate | now left].
      * destruct H as (e & _ & ->). simpl.
        split; [split; discriminate |]. split; [discriminate | now right; right].
    + destruct H as (e & _ & ->). simpl.
      split; [split; discriminate |]. split; [discriminate | now right; right].
  - rewrite (sonarqube_webhook_OK env req p key w Hp Hk Hne Hst). simpl.
    split; [split; discriminate |]. split; [discriminate | now left].
Qed.

(** ** An invariant of the token cache *)

Lemma cache_paired_same w w' :
  same_cache w w' -> cache_paired w -> cache_paired w'.
Proof.
  intros [Hc He] [[Hn1 Hn2] | (tok & e & Ht & Hne & Hx)].
  - left. split; congruence.
  - right. exists tok, e. repeat split; congruence.
Qed.

Section Paired.
Variable env : Env.

Lemma keeps_refl w : keeps w w.
Proof. intros H. exact H. Qed.

Lemma keeps_trans w1 w2 w3 : keeps w1 w2 -> keeps w2 w3 -> keeps w1 w3.
Proof. unfold keeps. auto. Qed.

Lemma keeps_sleep w ms : keeps w (emit (Sleep ms) w).
Proof. unfold keeps. apply cache_paired_same, same_cache_emit. Qed.

Lemma keeps_token w : keeps w (snd (getServiceNowToken env w)).
Proof.
  intros Hp.
  pose proof (getServiceNowToken_cases env w) as H.
  destruct (getServiceNowToken env w) as [[tok | v] w'] eqn:Hrun; simpl.
  - destruct (getServiceNowToken_returns env w tok w' Hrun) as (Hne & Hc & e & He).
    right. now exists tok, e.
  - destruct H as (_ & _ & _ & _ & Hsame). now apply (cache_paired_same w).
Qed.

Lemma keeps_incident token payload w :
  keeps w (snd (createServiceNowIncident env token payload w)).
Proof.
  intros Hp.
  pose proof (createServiceNowIncident_cache env token payload w) as H.
  cbv zeta in H.
  destruct (answered_401 (incident_post env (trace w) token payload)).
  - now left.
  - now apply (cache_paired_same w).
Qed.

Lemma keeps_lookup key w : keeps w (snd (getSonarQubeProject env key w)).
Proof.
  destruct (getSonarQubeProject_run env key w) as (r & -> & _).
  unfold keeps. apply cache_paired_same, same_cache_emit.
Qed.

Lemma keeps_mail i key projectName w :
  keeps w (snd (sendIncidentEmail env i key projectName w)).
Proof.
  destruct (sendIncidentEmail_run env i key projectName w) as (w' & -> & Hs & _).
  unfold keeps. now apply cache_paired_same.
Qed.

Lemma keeps_retry {A} (fn : M A) o :
  (forall w, keeps w (snd (fn w))) ->
  forall w, keeps w (snd (retryOperation env fn o w)).
Proof.
  intros Hfn.
  exact (retryOperation_preserves env fn o keeps keeps_refl keeps_trans keeps_sleep Hfn).
Qed.

Lemma keeps_webhook req w : keeps w (snd (sonarqube_webhook env req w)).
Proof.
  destruct (sonarqube_webhook_world env req w) as [-> | (p & key & _ & _ & _ & _ & H)];
    [apply keeps_refl |].
  pose proof (keeps_retry (getServiceNowToken env) (opts 3 "servicenow-oauth")
                keeps_token w) as H1.
  destruct (retryOperation env (getServiceNowToken env)
              (opts 3 "servicenow-oauth") w) as [[token | v] w1]; simpl in H1;
    [| now rewrite H].
  pose proof (keeps_retry
                (createServiceNowIncident env token
                   (webhook_payload (project_name p) key (gate_of req)))
                (opts 3 ("incident-" ++ key))
                (keeps_incident token _) w1) as H2.
  destruct (retryOperation env
              (createServiceNowIncident env token
                 (webhook_payload (project_name p) key (gate_of req)))
              (opts 3 ("incident-" ++ key)) w1) as [[i | v] w2]; simpl in H2;
    rewrite H.
  - eapply keeps_trans; [exact H1 |]. eapply keeps_trans; [exact H2 |].
    apply keeps_mail.
  - eapply keeps_trans; eassumption.
Qed.

Lemma keeps_item token key results w :
  keeps w (snd (batch_item env token key results w)).
Proof.
  pose proof (batch_item_cases env token key results w) as H.
  pose proof (keeps_retry (getSonarQubeProject env key) (opts 2 ("sonarqube-" ++ key))
                (keeps_lookup key) w) as H1.
  destruct (retryOperation env (getSonarQubeProject env key)
              (opts 2 ("sonarqube-" ++ key)) w) as [[d | v] w1]; simpl in H1.
  2: { destruct H as (e & _ & ->). exact H1. }
  destruct (first_component d) as [c |]; [| now rewrite H].
  pose proof (keeps_retry (createServiceNowIncident env token (batch_payload c key))
                (opts 3 ("incident-" ++ key)) (keeps_incident token _) w1) as H2.
  destruct (retryOperation env
              (createServiceNowIncident env token (batch_payload c key))
              (opts 3 ("incident-" ++ key)) w1) as [[i | v] w2]; simpl in H2.
  - destruct H as (w3 & -> & Hs & _). simpl.
    eapply keeps_trans; [exact H1 |]. eapply keeps_trans; [exact H2 |].
    unfold keeps. now apply cache_paired_same.
  - destruct H as (e & _ & ->). simpl. eapply keeps_trans; eassumption.
Qed.

Lemma keeps_loop token keys :
  forall results w, keeps w (snd (batch_loop env token keys results w)).
Proof.
  induction keys as [| key rest IH]; intros results w; [apply keeps_refl |].
  cbn [batch_loop]. unfold bind.
  pose proof (keeps_item token key results w) as H1.
  destruct (batch_item_run env token key results w) as (rec & w1 & Hitem & _).
  rewrite Hitem in *. simpl in H1.
  eapply keeps_trans; [exact H1 | apply IH].
Qed.

Lemma keeps_batch projectKeys w :
  keeps w (snd (create_incidents env projectKeys w)).
Proof.
  destruct projectKeys as [keys |]; [| apply keeps_refl].
  destruct (create_incidents_world env keys w) as [[-> _] | [_ H]];
    [apply keeps_refl |].
  pose proof (keeps_retry (getServiceNowToken env) (opts 3 "servicenow-oauth")
                keeps_token w) as H1.
  destruct (retryOperation env (getServiceNowToken env)
              (opts 3 "servicenow-oauth") w) as [[token | v] w1]; simpl in H1;
    rewrite H; [| exact H1].
  eapply keeps_trans; [exact H1 | apply keeps_loop].
Qed.

Lemma healthz_world henv deep w :
  snd (healthz env henv deep w) = w
  \/ snd (healthz env henv deep w) = snd (getServiceNowToken env w).
Proof.
  unfold healthz.
  destruct (negb (String.eqb (toLowerCase (tmpl (or_str deep (Some "")))) "true"));
    [now left | right].
  unfold check_sonarqube, check_servicenow. unfold_monad.
  destruct (version_get henv (trace w)) as [d | e]; simpl;
    destruct (getServiceNowToken env w) as [[tok | []] w1]; reflexivity.
Qed.

Lemma keeps_healthz henv deep w : keeps w (snd (healthz env henv deep w)).
Proof.
  destruct (healthz_world henv deep w) as [-> | ->];
    [apply keeps_refl | apply keeps_token].
Qed.

End Paired.

(** X16: the two cache variables stay paired.  If they are both [null], or
    both set with a non-empty token, before a request, they are so after it,
    for the webhook, the batch and the health endpoint alike: there is never
    a token without an expiry, an expiry without a token, or an empty
    token. *)
Theorem cache_stays_paired env henv w :
  cache_paired w ->
  (forall req, cache_paired (snd (sonarqube_webhook env req w)))
  /\ (forall projectKeys, cache_paired (snd (create_incidents env projectKeys w)))
  /\ (forall deep, cache_paired (snd (healthz env henv deep w))).
Proof.
  intros Hp. split; [| split].
  - intros req. now apply keeps_webhook.
  - intros projectKeys. now apply keeps_batch.
  - intros deep. now apply keeps_healthz.
Qed.

(** From the initial state of the module, through a failed gate. *)
Lemma cache_stays_paired_witness :
  cache_paired Scenario.fresh_world
  /\ cache_paired (snd (sonarqube_webhook (Scenario.env true) Scenario.failed_gate
                          Scenario.fresh_world)).
Proof.
  assert (H : cache_paired Scenario.fresh_world) by (left; split; reflexivity).
  split; [exact H |].
  destruct (cache_stays_paired (Scenario.env true) Cases.sonar_up
              Scenario.fresh_world H) as (Hw & _).
  apply Hw.
Defined.

(** ** Single keys of a batch *)

(** X17: a lookup that succeeds without a usable first component gives
    ["not_found"], whichever way the component is missing: a [null] body, a
    body without [components], an empty array, or an array whose first entry
    is [null].  No ticket is attempted: the iteration ends in the world the
    lookup left. *)
Theorem missing_component_is_not_found env token key results w d w1 :
  retryOperation env (getSonarQubeProject env key)
    (opts 2 ("sonarqube-" ++ key)) w = (Return d, w1) ->
  match d with
  | None => True
  | Some {| components := None |} => True
  | Some {| components := Some [] |} => True
  | Some {| components := Some (None :: _) |} => True
  | Some {| components := Some (Some _ :: _) |} => False
  end ->
  batch_item env token key results w =
    (Return (results ++ [not_found_record key])%list, w1).
Proof.
  intros Hlook Hd.
  pose proof (batch_item_cases env token key results w) as H.
  rewrite Hlook in H.
  assert (Hnone : first_component d = None).
  { destruct d as [[[[| [c |] l] |]] |]; simpl in *; (reflexivity || contradiction). }
  now rewrite Hnone in H.
Qed.



(** The four shapes of a missing component give the same record. *)
Lemma missing_component_is_not_found_witness :
  batch_item (Scenario.env true) "fresh" "empty" [] Scenario.fresh_world =
    (Return [not_found_record "empty"],
     emit (SonarSearch "empty") Scenario.fresh_world).
Proof.
  apply (missing_component_is_not_found (Scenario.env true) "fresh" "empty" []
           Scenario.fresh_world (Some {| components := Some [] |})).
  - vm_compute. reflexivity.
  - exact I.
Defined.

(** ** The notification *)

(** X19: one notification sends at most one mail, and only through a transport
    that could be created and with the channel configured: the mail goes to
    the host [SMTP_HOST], from [EMAIL_FROM] to [EMAIL_TO], all three
    non-empty.  If the transport cannot be created nothing is sent. *)
Theorem notification_sends_at_most_one env i key projectName w :
  let w' := snd (sendIncidentEmail env i key projectName w) in
  w' = w
  \/ exists t m,
       w' = emit (SendMail t m) w
       /\ createTransport env t = None
       /\ host t = SMTP_HOST env /\ truthy_str (host t) = true
       /\ mail_from m = EMAIL_FROM env /\ truthy_str (mail_from m) = true
       /\ mail_to m = EMAIL_TO env /\ truthy_str (mail_to m) = true.
Proof.
  cbv zeta. unfold sendIncidentEmail.
  destruct (smtp_configured env) eqn:Hconf; simpl; [| now left].
  unfold smtp_configured in Hconf.
  apply andb_true_iff in Hconf as [Hconf Hto].
  apply andb_true_iff in Hconf as [Hhost Hfrom].
  unfold getTransport. unfold_monad.
  match goal with
  | |- context [createTransport env ?opts] =>
      destruct (createTransport env opts) eqn:Hct
  end; simpl; [now left |].
  right.
  match goal with
  | |- context [transport_sendMail env ?h ?t ?m] =>
      exists t, m; destruct (transport_sendMail env h t m)
  end; simpl; repeat split; assumption.
Qed.

(** ** GET /healthz *)

Lemma healthz_shallow env henv deep w :
  String.eqb (toLowerCase (tmpl (or_str deep (Some "")))) "true" = false ->
  exists resp,
    healthz env henv deep w = (Return resp, w)
    /\ health_code resp = 200 /\ checks resp = None.
Proof.
  intros H. unfold healthz. rewrite H. simpl. eexists. repeat split.
Qed.

Lemma healthz_deep env henv deep w :
  String.eqb (toLowerCase (tmpl (or_str deep (Some "")))) "true" = true ->
  exists resp sq sn,
    healthz env henv deep w = (Return resp, snd (getServiceNowToken env w))
    /\ checks resp = Some (sq, sn)
    /\ health_code resp = (if (reachable sq && oauth_ok sn)%bool then 200 else 503)
    /\ reachable sq = match version_get henv (trace w) with
                      | Resolved _ => true
                      | Rejected _ => false
                      end
    /\ oauth_ok sn = match fst (getServiceNowToken env w) with
                     | Return _ => true
                     | Throw _ => false
                     end.
Proof.
  intros H. unfold healthz. rewrite H. simpl negb. cbv iota.
  unfold check_sonarqube, check_servicenow. unfold_monad.
  destruct (getServiceNowToken env w) as [[tok | v] w1] eqn:Htok.
  - destruct (getServiceNowToken_returns env w tok w1 Htok) as (Hne & _).
    assert (Heq : String.eqb tok "" = false)
      by (destruct (String.eqb_spec tok ""); [contradiction | reflexivity]).
    destruct (version_get henv (trace w)) as [d | e]; simpl;
      rewrite Htok; simpl; rewrite Heq;
      do 3 eexists; repeat split.
  - destruct (getServiceNowToken_raises env w v w1 Htok) as (e' & ->).
    destruct (version_get henv (trace w)) as [d | e]; simpl;
      rewrite Htok; simpl; do 3 eexists; repeat split.
Qed.

(** X20: the health endpoint never raises.  Unless [deep] is ["true"] in some
    letter case it answers 200 at once: nothing is checked and the world is
    untouched.  A deep check answers 200 exactly when the version request
    resolved and [getServiceNowToken] returned, and 503 otherwise; its only
    effect on the process is that of one [getServiceNowToken] call, so a deep
    check can fill the token cache. *)
Theorem healthz_status env henv deep w :
  let is_deep := String.eqb (toLowerCase (tmpl (or_str deep (Some "")))) "true" in
  match healthz env henv deep w with
  | (Return resp, w') =>
      if is_deep
      then
        w' = snd (getServiceNowToken env w)
        /\ (health_code resp = 200 \/ health_code resp = 503)
        /\ (health_code resp = 200 <->
            (exists d, version_get henv (trace w) = Resolved d)
            /\ (exists tok, fst (getServiceNowToken env w) = Return tok))
      else w' = w /\ health_code resp = 200 /\ checks resp = None
  | (Throw _, _) => False
  end.
Proof.
  cbv zeta.
  destruct (String.eqb (toLowerCase (tmpl (or_str deep (Some "")))) "true") eqn:Hd.
  - destruct (healthz_deep env henv deep w Hd)
      as (resp & sq & sn & -> & _ & Hcode & Hsq & Hsn).
    split; [reflexivity |]. rewrite Hcode, Hsq, Hsn.
    destruct (version_get henv (trace w)) as [d | e],
             (fst (getServiceNowToken env w)) as [tok | v]; simpl.
    + split; [now left |]. split; [intros _ | reflexivity].
      split; eexists; reflexivity.
    + split; [now right |]. split; [discriminate |].
      intros [_ [tok [=]]].
    + split; [now right |]. split; [discriminate |].
      intros [[d [=]] _].
    + split; [now right |]. split; [discriminate |].
      intros [[d [=]] _].
  - destruct (healthz_shallow env henv deep w Hd) as (resp & -> & Hc & Hn). auto.
Qed.

(** ** Start-up *)

(** X21: the variables reported missing are exactly the required ones that
    are unset or set to the empty string, and [validateEnv] returns exactly
    when there is none.  If one is missing the process exits with code 1
    whatever [app.listen] would do; if none is, it listens on [PORT], or on
    3000 when [PORT] is unset, provided [app.listen] does not throw. *)
Theorem startup_requires_all listen process_env :
  (forall key, In key (missing_vars process_env) <->
               In key required /\ truthy_str (process_env key) = false)
  /\ (validateEnv process_env = Return tt <->
      forall key, In key required -> truthy_str (process_env key) = true)
  /\ ((exists key, In key required /\ truthy_str (process_env key) = false) ->
      startup listen process_env = Exited 1)
  /\ ((forall key, In key required -> truthy_str (process_env key) = true) ->
      let port := match process_env "PORT" with
                  | Some s => PortString s
                  | None => PortNumber 3000
                  end in
      listen port = None ->
      startup listen process_env = Listening port).
Proof.
  assert (Hmiss : forall key, In key (missing_vars process_env) <->
                    In key required /\ truthy_str (process_env key) = false).
  { intros key. unfold missing_vars. rewrite filter_In.
    now rewrite negb_true_iff. }
  split; [exact Hmiss |].
  unfold startup, validateEnv.
  destruct (missing_vars process_env) as [| key0 l]; simpl.
  - assert (Hall : forall key, In key required -> truthy_str (process_env key) = true).
    { intros key Hkey.
      destruct (truthy_str (process_env key)) eqn:Ht; [reflexivity |].
      exfalso. now apply (Hmiss key). }
    split; [tauto |]. split.
    + intros (key & Hreq & Hfalse). rewrite (Hall key Hreq) in Hfalse. discriminate.
    + intros _ Hlisten. now rewrite Hlisten.
  - assert (Hin : In key0 required /\ truthy_str (process_env key0) = false)
      by (apply Hmiss; now left).
    destruct Hin as [Hreq Hfalse].
    split; [| split; [reflexivity |]].
    + split; [discriminate |].
      intros Hall. rewrite (Hall key0 Hreq) in Hfalse. discriminate.
    + intros Hall. rewrite (Hall key0 Hreq) in Hfalse. discriminate.
Qed.

(** An empty [SONARQUBE_TOKEN] and an unset [SERVICENOW_URL] stop the
    start-up, and both are named. *)
Lemma startup_requires_all_witness :
  startup (fun _ => None) Cases.partial_env = Exited 1
  /\ validateEnv Cases.partial_env =
       Throw (JsErr (new_Error
         "Missing required environment variables: SONARQUBE_TOKEN, SERVICENOW_URL"))
  /\ startup (fun _ => None) Cases.full_env = Listening (PortNumber 3000).
Proof.
  destruct (startup_requires_all (fun _ => None) Cases.partial_env)
    as (_ & _ & Hexit & _).
  split; [| split; reflexivity].
  apply Hexit. exists "SONARQUBE_TOKEN". split; [right; now left | reflexivity].
Defined.
